(** * Entity: a keyed registry over two insertion-ordered maps

    Shallow embedding of [src/index.ts] (class [Entity]) and the
    properties of its public operations.

    The class keeps two ECMAScript [Map]s:
      - [entityMap     : Map<symbol, EntityType>]
      - [entitySymbols : Map<Identifiers, symbol>]
    An ECMAScript [Map] remembers insertion order, [set] on a key that
    is already present keeps the key at its place, and [Symbol(d)]
    returns a value different from every symbol made before. *)

From Stdlib Require Import String Bool Arith Lia ZArith List.
Import ListNotations.

Local Open Scope list_scope.

(** ** Keys with a decidable identity *)

Class EqKey (K : Type) : Type := {
  key_eqb : K -> K -> bool;
  key_eqb_spec : forall a b : K, reflect (a = b) (key_eqb a b)
}.

#[export] Instance EqKey_string : EqKey string :=
  {| key_eqb := String.eqb; key_eqb_spec := String.eqb_spec |}.

(** ** ECMAScript [Map] as an insertion-ordered association list *)

Module JSMap.

Definition t (K V : Type) : Type := list (K * V).

Section Ops.
Context {K V : Type} `{EqKey K}.

Definition empty : t K V := [].

(** [Map.prototype.get]: [None] stands for [undefined]. *)
Fixpoint get (k : K) (m : t K V) : option V :=
  match m with
  | [] => None
  | (k', v) :: m' => if key_eqb k k' then Some v else get k m'
  end.

(** [Map.prototype.has] *)
Fixpoint has (k : K) (m : t K V) : bool :=
  match m with
  | [] => false
  | (k', _) :: m' => if key_eqb k k' then true else has k m'
  end.

(** [Map.prototype.set]: a present key keeps its position and gets the
    new value, an absent key is appended. *)
Fixpoint set (k : K) (v : V) (m : t K V) : t K V :=
  match m with
  | [] => [(k, v)]
  | (k', v') :: m' =>
      if key_eqb k k' then (k', v) :: m' else (k', v') :: set k v m'
  end.

(** [Map.prototype.delete]: removes the entry of the key. *)
Fixpoint delete (k : K) (m : t K V) : t K V :=
  match m with
  | [] => []
  | (k', v') :: m' =>
      if key_eqb k k' then m' else (k', v') :: delete k m'
  end.

(** [Map.prototype.clear] *)
Definition clear (m : t K V) : t K V := [].

(** [Map.prototype.size] *)
Definition size (m : t K V) : nat := length m.

(** [Array.from(m.keys())] and [Array.from(m.values())] *)
Definition keys (m : t K V) : list K := map fst m.
Definition values (m : t K V) : list V := map snd m.

(** [m.forEach((value, key) => body)], where the body updates the
    variables it captures, of type [S]; entries are visited in
    insertion order. *)
Definition forEach {S : Type} (callbackfn : V -> K -> S -> S)
    (m : t K V) (s : S) : S :=
  fold_left (fun acc kv => callbackfn (snd kv) (fst kv) acc) m s.

(** Keys of a [Map] are pairwise different. *)
Definition wf (m : t K V) : Prop := NoDup (keys m).

End Ops.

(** The result of [next()] on an iterator: [value] is [undefined]
    ([None]) once the iterator is done. *)
Record IteratorResult (A : Type) : Type := mkResult {
  done : bool;
  value : A
}.
Arguments mkResult {A} _ _.
Arguments done {A} _.
Arguments value {A} _.

(** The iterator returned by [m.values()]: what is left to visit. *)
Definition MapIterator (A : Type) : Type := list A.

Definition values_iterator {K V : Type} (m : t K V) : MapIterator V :=
  values m.

Definition next {A : Type} (it : MapIterator A)
  : IteratorResult (option A) * MapIterator A :=
  match it with
  | [] => (mkResult true None, [])
  | x :: rest => (mkResult false (Some x), rest)
  end.

End JSMap.

(** ** Symbols *)

(** A symbol is known by the moment of its creation; it carries the
    description it was created with. *)
Record symbol : Type := mkSymbol {
  sym_id : nat;
  description : string
}.

Definition symbol_eqb (a b : symbol) : bool :=
  Nat.eqb (sym_id a) (sym_id b) && String.eqb (description a) (description b).

Lemma symbol_eqb_spec (a b : symbol) : reflect (a = b) (symbol_eqb a b).
Proof.
  destruct a as [n d], b as [n' d']. unfold symbol_eqb. simpl.
  destruct (Nat.eqb_spec n n') as [->|Hn]; simpl.
  - destruct (String.eqb_spec d d') as [->|Hd]; constructor; congruence.
  - constructor. congruence.
Qed.

#[export] Instance EqKey_symbol : EqKey symbol :=
  {| key_eqb := symbol_eqb; key_eqb_spec := symbol_eqb_spec |}.

(** [Symbol(description)]: the runtime hands out the next symbol;
    [minted] is the number of symbols created so far. *)
Definition Symbol (description : string) (minted : nat) : symbol * nat :=
  (mkSymbol minted description, S minted).

(** ** Plain objects, by their own properties *)

Module JSObject.

(** The own properties of an object made by [{}], with their values.
    Only lookup by key is modelled; the order in which [Object.keys]
    lists them is not. *)
Definition t (V : Type) : Type := JSMap.t string V.

Definition empty {V : Type} : t V := [].

(** [obj[key] = value].  Every key makes, or updates, an own property,
    but ["__proto__"]: for that key the assignment goes to the setter
    of [Object.prototype], and what follows depends on the value; that
    case is left out, as [None]. *)
Definition assign {V : Type} (key : string) (value : V) (obj : t V)
  : option (t V) :=
  if String.eqb key "__proto__" then None
  else Some (JSMap.set key value obj).

(** [Object.hasOwn(obj, key)] and [obj[key]] in one: the value of the
    own property, if there is one. *)
Definition own {V : Type} (key : string) (obj : t V) : option V :=
  JSMap.get key obj.

End JSObject.

(** ** The class [Entity] *)

Module Entity.

Section Class.
Context {EntityType : Type}.

(** The two private fields, and the runtime's symbol supply, which
    [add] draws from. *)
Record t : Type := mk {
  entityMap : JSMap.t symbol EntityType;
  entitySymbols : JSMap.t string symbol;
  minted : nat
}.

(** The callbacks of the combinators get the entity as
    [entityMap.get(symbol)], which is [undefined] for a symbol that
    has no entry.  [thisArg] only chooses the callback's [this]; a
    callback here is a function of its arguments. *)
Definition callback (R : Type) : Type :=
  option EntityType -> string -> JSMap.t symbol EntityType -> R.

(** Field initialisers: both maps start empty. *)
Definition fresh (supply : nat) : t :=
  mk JSMap.empty JSMap.empty supply.

Definition add (identifier : string) (entity : EntityType) (this : t) : t :=
  let (symbol, supply) := Symbol identifier (minted this) in
  mk (JSMap.set symbol entity (entityMap this))
     (JSMap.set identifier symbol (entitySymbols this))
     supply.

(** [constructor(entities?)]: [entities] is given as its
    [Object.entries]. *)
Definition constructor (entities : option (list (string * EntityType)))
    (supply : nat) : t :=
  match entities with
  | Some entries =>
      fold_left (fun this ie => add (fst ie) (snd ie) this) entries
                (fresh supply)
  | None => fresh supply
  end.

(** A symbol is never falsy, so the conditional takes its first branch
    whenever the identifier has a symbol. *)
Definition get (identifier : string) (this : t) : option EntityType :=
  match JSMap.get identifier (entitySymbols this) with
  | Some symbol => JSMap.get symbol (entityMap this)
  | None => None
  end.

Definition remove (identifier : string) (this : t) : bool * t :=
  match JSMap.get identifier (entitySymbols this) with
  | Some symbol =>
      (true, mk (JSMap.delete symbol (entityMap this))
                (JSMap.delete identifier (entitySymbols this))
                (minted this))
  | None => (false, this)
  end.

Definition clear (this : t) : t :=
  mk (JSMap.clear (entityMap this)) (JSMap.clear (entitySymbols this))
     (minted this).

(** [getAllEntities]: the record is built by one assignment per entry of
    [entitySymbols]; [None] when an assignment is one the model of
    objects leaves out. *)
Definition getAllEntities (this : t) : option (JSObject.t (option EntityType)) :=
  JSMap.forEach
    (fun symbol identifier entities =>
       match entities with
       | Some obj =>
           JSObject.assign identifier (JSMap.get symbol (entityMap this)) obj
       | None => None
       end)
    (entitySymbols this) (Some JSObject.empty).

Definition getAllIdentifiers (this : t) : list string :=
  JSMap.keys (entitySymbols this).

Definition getAllSymbols (this : t) : list symbol :=
  JSMap.keys (entityMap this).

Definition size (this : t) : nat := JSMap.size (entityMap this).
Definition length (this : t) : nat := size this.

Definition isEmpty (this : t) : bool :=
  Nat.eqb (JSMap.size (entityMap this)) 0.

Definition has (identifier : string) (this : t) : bool :=
  JSMap.has identifier (entitySymbols this).

(** [forEach]: the callback works on the caller's state [S]; its
    arguments are (identifier, entity, entityMap). *)
Definition forEach {S : Type}
    (callback : string -> option EntityType ->
                JSMap.t symbol EntityType -> S -> S)
    (this : t) (s : S) : S :=
  JSMap.forEach
    (fun symbol identifier acc =>
       callback identifier (JSMap.get symbol (entityMap this))
                (entityMap this) acc)
    (entitySymbols this) s.

Definition map {T : Type} (callback : callback T) (this : t) : list T :=
  JSMap.forEach
    (fun symbol identifier result =>
       result ++ [callback (JSMap.get symbol (entityMap this)) identifier
                           (entityMap this)])
    (entitySymbols this) [].

Definition filter (callback : callback bool) (this : t)
  : list (option EntityType) :=
  JSMap.forEach
    (fun symbol identifier result =>
       if callback (JSMap.get symbol (entityMap this)) identifier
                   (entityMap this)
       then result ++ [JSMap.get symbol (entityMap this)]
       else result)
    (entitySymbols this) [].

(** [find] with a callback that also works on the caller's state [S]:
    the pair is (result, caller's state). *)
Definition find_st {S : Type}
    (callback : option EntityType -> string ->
                JSMap.t symbol EntityType -> S -> bool * S)
    (this : t) (s : S) : option EntityType * S :=
  JSMap.forEach
    (fun symbol identifier acc =>
       let (b, s') :=
         callback (JSMap.get symbol (entityMap this)) identifier
                  (entityMap this) (snd acc) in
       (if b then JSMap.get symbol (entityMap this) else fst acc, s'))
    (entitySymbols this) (None, s).

(** [find] with a callback without effects. *)
Definition find (callback : callback bool) (this : t)
  : option EntityType :=
  JSMap.forEach
    (fun symbol identifier result =>
       if callback (JSMap.get symbol (entityMap this)) identifier
                   (entityMap this)
       then JSMap.get symbol (entityMap this)
       else result)
    (entitySymbols this) None.

Definition reduce {T : Type}
    (callback : T -> option EntityType -> string ->
                JSMap.t symbol EntityType -> T)
    (initialValue : T) (this : t) : T :=
  JSMap.forEach
    (fun symbol identifier accumulator =>
       callback accumulator (JSMap.get symbol (entityMap this)) identifier
                (entityMap this))
    (entitySymbols this) initialValue.

(** *** [Symbol.iterator] *)

(** The object returned by [[Symbol.iterator]()]: the two map
    iterators its [next] closes over, and [this.entityMap]. *)
Record iterator : Type := mkIterator {
  symbols : JSMap.MapIterator symbol;
  entities : JSMap.MapIterator EntityType;
  this_entityMap : JSMap.t symbol EntityType
}.

Definition item : Type :=
  (option EntityType * option symbol * option symbol
   * JSMap.t symbol EntityType)%type.

Definition Symbol_iterator (this : t) : iterator :=
  mkIterator (JSMap.values_iterator (entitySymbols this))
             (JSMap.values_iterator (entityMap this))
             (entityMap this).

Definition next (it : iterator) : JSMap.IteratorResult item * iterator :=
  let (symbol, symbols') := JSMap.next (symbols it) in
  let (entity, entities') := JSMap.next (entities it) in
  (JSMap.mkResult
     (JSMap.done symbol || JSMap.done entity)
     (JSMap.value entity, JSMap.value symbol, JSMap.value symbol,
      this_entityMap it),
   mkIterator symbols' entities' (this_entityMap it)).

(** Consuming an iterator as [for ... of] and spread do: [next] is
    called until it answers [done]; [None] when [fuel] calls were not
    enough. *)
Fixpoint drain (fuel : nat) (it : iterator) : option (list item) :=
  match fuel with
  | O => None
  | S fuel' =>
      let (r, it') := next it in
      if JSMap.done r then Some []
      else match drain fuel' it' with
           | Some items => Some (JSMap.value r :: items)
           | None => None
           end
  end.

(** [[...this]]: one call to [next] per symbol, and the one that
    answers [done]. *)
Definition spread (this : t) : option (list item) :=
  drain (S (List.length (JSMap.values (entitySymbols this))))
        (Symbol_iterator this).

(** *** Sequences of calls *)

Inductive call : Type :=
| Add (identifier : string) (entity : EntityType)
| Remove (identifier : string)
| Clear.

Definition perform (c : call) (this : t) : t :=
  match c with
  | Add identifier entity => add identifier entity this
  | Remove identifier => snd (remove identifier this)
  | Clear => clear this
  end.

Definition run (calls : list call) (this : t) : t :=
  fold_left (fun acc c => perform c acc) calls this.

(** Whether a call is [add] with the given identifier. *)
Definition adds (identifier : string) (c : call) : bool :=
  match c with
  | Add i _ => String.eqb i identifier
  | _ => false
  end.

End Class.

Arguments t : clear implicits.
Arguments call : clear implicits.
Arguments iterator : clear implicits.
Arguments item : clear implicits.

End Entity.

(** ** States the class can be in *)

Section Reachable.
Context {EntityType : Type}.
Import Entity.

(** What every call keeps true of the two maps and the symbol supply:
    keys are pairwise different, every symbol of [entityMap] was made
    before, every symbol of [entitySymbols] has an entry in
    [entityMap], and no two identifiers share a symbol. *)
Definition Inv (this : Entity.t EntityType) : Prop :=
  JSMap.wf (entityMap this) /\
  JSMap.wf (entitySymbols this) /\
  (forall s, In s (JSMap.keys (entityMap this)) -> sym_id s < minted this) /\
  (forall s, In s (JSMap.values (entitySymbols this)) ->
             In s (JSMap.keys (entityMap this))) /\
  NoDup (JSMap.values (entitySymbols this)).

(** The two maps list the same symbols in the same order. *)
Definition aligned (this : Entity.t EntityType) : Prop :=
  JSMap.values (entitySymbols this) = JSMap.keys (entityMap this).

End Reachable.

(** * Facts about [JSMap] *)

Lemma key_eqb_refl {K} `{EqKey K} (a : K) : key_eqb a a = true.
Proof. destruct (key_eqb_spec a a); congruence. Qed.

Lemma key_eqb_neq {K} `{EqKey K} {a b : K} : a <> b -> key_eqb a b = false.
Proof. destruct (key_eqb_spec a b); congruence. Qed.


Section JSMapFacts.
Context {K V : Type} `{EqKey K}.
Import JSMap.

Lemma has_get (k : K) (m : t K V) :
  has k m = match get k m with Some _ => true | None => false end.
Proof.
  induction m as [|[k' v'] m IH]; simpl; [reflexivity|].
  destruct (key_eqb k k'); auto.
Qed.

Lemma has_In (k : K) (m : t K V) : has k m = true <-> In k (keys m).
Proof.
  induction m as [|[k' v'] m IH]; simpl.
  - split; [discriminate | tauto].
  - destruct (key_eqb_spec k k') as [->|Hne].
    + split; auto.
    + rewrite IH. split; [auto | intros [E|]; [congruence | assumption]].
Qed.

Lemma has_false_notin (k : K) (m : t K V) :
  has k m = false <-> ~ In k (keys m).
Proof.
  rewrite <- has_In. destruct (has k m); split; congruence.
Qed.

Lemma get_None (k : K) (m : t K V) : get k m = None <-> ~ In k (keys m).
Proof.
  rewrite <- has_false_notin, has_get.
  destruct (get k m); split; congruence.
Qed.

Lemma get_Some_In (k : K) (v : V) (m : t K V) :
  get k m = Some v -> In (k, v) m.
Proof.
  induction m as [|[k' v'] m IH]; simpl; [discriminate|].
  destruct (key_eqb_spec k k') as [->|Hne].
  - intros [= ->]. now left.
  - auto.
Qed.

Lemma In_get (k : K) (v : V) (m : t K V) :
  wf m -> In (k, v) m -> get k m = Some v.
Proof.
  unfold wf. induction m as [|[k' v'] m IH]; simpl; [tauto|].
  intros Hnd [E|Hin]; inversion Hnd as [|? ? Hnotin Hnd']; subst.
  - inversion E; subst. now rewrite key_eqb_refl.
  - destruct (key_eqb_spec k k') as [->|Hne]; [|auto].
    exfalso. apply Hnotin. change k' with (fst (k', v)). now apply in_map.
Qed.

Lemma get_set_eq (k : K) (v : V) (m : t K V) : get k (set k v m) = Some v.
Proof.
  induction m as [|[k' v'] m IH]; simpl.
  - now rewrite key_eqb_refl.
  - destruct (key_eqb_spec k k') as [->|Hne]; simpl.
    + now rewrite key_eqb_refl.
    + now rewrite (key_eqb_neq Hne).
Qed.

Lemma get_set_neq (k k0 : K) (v : V) (m : t K V) :
  k0 <> k -> get k0 (set k v m) = get k0 m.
Proof.
  intros Hne. induction m as [|[k' v'] m IH]; simpl.
  - now rewrite (key_eqb_neq Hne).
  - destruct (key_eqb_spec k k') as [->|Hne']; simpl.
    + now rewrite (key_eqb_neq Hne).
    + now rewrite IH.
Qed.

(** [set] with an absent key appends. *)
Lemma set_absent (k : K) (v : V) (m : t K V) :
  has k m = false -> set k v m = m ++ [(k, v)].
Proof.
  induction m as [|[k' v'] m IH]; simpl; [reflexivity|].
  destruct (key_eqb k k'); [discriminate|].
  intros Hh. now rewrite IH.
Qed.

(** [set] with a present key leaves the keys, and their order, alone. *)
Lemma keys_set_present (k : K) (v : V) (m : t K V) :
  has k m = true -> keys (set k v m) = keys m.
Proof.
  induction m as [|[k' v'] m IH]; simpl; [discriminate|].
  destruct (key_eqb k k'); simpl; [reflexivity|].
  intros Hh. now rewrite IH.
Qed.

Lemma keys_set (k : K) (v : V) (m : t K V) :
  keys (set k v m) = if has k m then keys m else keys m ++ [k].
Proof.
  destruct (has k m) eqn:Hh.
  - now apply keys_set_present.
  - rewrite (set_absent _ _ _ Hh). unfold keys. now rewrite map_app.
Qed.

Lemma size_set (k : K) (v : V) (m : t K V) :
  size (set k v m) = if has k m then size m else S (size m).
Proof.
  unfold size. rewrite <- !(length_map fst). fold (keys (set k v m)).
  fold (keys m). rewrite keys_set. destruct (has k m); [reflexivity|].
  rewrite length_app. simpl. lia.
Qed.

Lemma wf_set (k : K) (v : V) (m : t K V) : wf m -> wf (set k v m).
Proof.
  unfold wf. rewrite keys_set. destruct (has k m) eqn:Hh; [auto|].
  intros Hnd. apply NoDup_app; [assumption | repeat constructor; simpl; tauto |].
  intros x Hx [<-|[]]. now apply has_false_notin in Hh.
Qed.

Lemma In_keys_delete (k k0 : K) (m : t K V) :
  In k0 (keys (delete k m)) -> In k0 (keys m).
Proof.
  induction m as [|[k' v'] m IH]; simpl; [tauto|].
  destruct (key_eqb k k'); simpl; tauto.
Qed.

Lemma wf_delete (k : K) (m : t K V) : wf m -> wf (delete k m).
Proof.
  unfold wf. induction m as [|[k' v'] m IH]; simpl; [auto|].
  intros Hnd. inversion Hnd as [|? ? Hnotin Hnd']; subst.
  destruct (key_eqb k k'); [assumption|]. simpl.
  constructor; [|auto]. intros Hin. apply Hnotin.
  now apply In_keys_delete in Hin.
Qed.

Lemma get_delete_eq (k : K) (m : t K V) : wf m -> get k (delete k m) = None.
Proof.
  unfold wf. induction m as [|[k' v'] m IH]; simpl; [reflexivity|].
  intros Hnd. inversion Hnd as [|? ? Hnotin Hnd']; subst.
  destruct (key_eqb_spec k k') as [->|Hne]; simpl.
  - now apply get_None.
  - rewrite (key_eqb_neq Hne). auto.
Qed.

Lemma get_delete_neq (k k0 : K) (m : t K V) :
  k0 <> k -> get k0 (delete k m) = get k0 m.
Proof.
  intros Hne. induction m as [|[k' v'] m IH]; simpl; [reflexivity|].
  destruct (key_eqb_spec k k') as [->|Hne']; simpl.
  - now rewrite (key_eqb_neq Hne).
  - now rewrite IH.
Qed.

Lemma has_delete_eq (k : K) (m : t K V) : wf m -> has k (delete k m) = false.
Proof. intros Hw. now rewrite has_get, get_delete_eq. Qed.

Lemma In_keys_delete_neq (k k0 : K) (m : t K V) :
  k0 <> k -> In k0 (keys m) -> In k0 (keys (delete k m)).
Proof.
  intros Hne. induction m as [|[k' v'] m IH]; simpl; [tauto|].
  destruct (key_eqb_spec k k') as [->|Hne'].
  - intros [E|Hin]; [congruence | assumption].
  - simpl. tauto.
Qed.

Lemma In_values_delete (k : K) (v : V) (m : t K V) :
  In v (values (delete k m)) -> In v (values m).
Proof.
  induction m as [|[k' v'] m IH]; simpl; [tauto|].
  destruct (key_eqb k k'); simpl; tauto.
Qed.

Lemma NoDup_values_delete (k : K) (m : t K V) :
  NoDup (values m) -> NoDup (values (delete k m)).
Proof.
  induction m as [|[k' v'] m IH]; simpl; [auto|].
  intros Hnd. inversion Hnd as [|? ? Hnotin Hnd']; subst.
  destruct (key_eqb k k'); [assumption|]. simpl.
  constructor; [|auto]. intros Hin. apply Hnotin.
  now apply In_values_delete in Hin.
Qed.

Lemma In_values_set (k : K) (v v0 : V) (m : t K V) :
  In v0 (values (set k v m)) -> v0 = v \/ In v0 (values m).
Proof.
  induction m as [|[k' v'] m IH]; simpl.
  - intros [E|[]]. now left.
  - destruct (key_eqb k k'); simpl.
    + intros [E|Hin]; [now left | right; now right].
    + intros [E|Hin]; [right; now left|].
      destruct (IH Hin); [now left | right; now right].
Qed.

Lemma NoDup_values_set (k : K) (v : V) (m : t K V) :
  ~ In v (values m) -> NoDup (values m) -> NoDup (values (set k v m)).
Proof.
  induction m as [|[k' v'] m IH]; simpl.
  - intros _ _. repeat constructor. simpl. tauto.
  - intros Hnotin Hnd. inversion Hnd as [|? ? Hnotin' Hnd']; subst.
    destruct (key_eqb k k'); simpl.
    + constructor; [tauto | assumption].
    + constructor; [|apply IH; tauto].
      intros Hin. apply In_values_set in Hin. destruct Hin as [E|Hin].
      * apply Hnotin. now left.
      * now apply Hnotin'.
Qed.

(** The entry a key resolves to is among the values. *)
Lemma get_Some_values (k : K) (v : V) (m : t K V) :
  get k m = Some v -> In v (values m).
Proof.
  intros Hg. apply get_Some_In in Hg.
  change v with (snd (k, v)). now apply in_map.
Qed.

(** When no value occurs twice, a value belongs to one key only. *)
Lemma values_injective (k k0 : K) (v : V) (m : t K V) :
  NoDup (values m) -> get k m = Some v -> get k0 m = Some v -> k = k0.
Proof.
  induction m as [|[k' v'] m IH]; simpl; [discriminate|].
  intros Hnd. inversion Hnd as [|? ? Hnotin Hnd']; subst.
  destruct (key_eqb_spec k k') as [->|Hne];
    destruct (key_eqb_spec k0 k') as [->|Hne0].
  - reflexivity.
  - intros [= ->] Hg. exfalso. apply Hnotin. eapply get_Some_values; eauto.
  - intros Hg [= ->]. exfalso. apply Hnotin. eapply get_Some_values; eauto.
  - now apply IH.
Qed.

Lemma values_delete_get (k : K) (v : V) (m : t K V) :
  NoDup (values m) -> get k m = Some v -> ~ In v (values (delete k m)).
Proof.
  induction m as [|[k' v'] m IH]; simpl; [discriminate|].
  intros Hnd. inversion Hnd as [|? ? Hnotin Hnd']; subst.
  destruct (key_eqb_spec k k') as [->|Hne].
  - now intros [= ->].
  - intros Hg. simpl. intros [E|Hin].
    + subst v'. apply Hnotin. eapply get_Some_values; eauto.
    + now apply (IH Hnd' Hg).
Qed.

Lemma keys_delete_notin (k : K) (m : t K V) :
  wf m -> ~ In k (keys (delete k m)).
Proof.
  intros Hw. apply has_false_notin. now apply has_delete_eq.
Qed.

Lemma has_delete_neq (k k0 : K) (m : t K V) :
  k0 <> k -> has k0 (delete k m) = has k0 m.
Proof. intros Hne. now rewrite !has_get, get_delete_neq. Qed.

Lemma has_set_eq (k : K) (v : V) (m : t K V) : has k (set k v m) = true.
Proof. now rewrite has_get, get_set_eq. Qed.

Lemma has_set_neq (k k0 : K) (v : V) (m : t K V) :
  k0 <> k -> has k0 (set k v m) = has k0 m.
Proof. intros Hne. now rewrite !has_get, get_set_neq. Qed.

Lemma get_Some_has (k : K) (v : V) (m : t K V) :
  get k m = Some v -> has k m = true.
Proof. intros Hg. now rewrite has_get, Hg. Qed.

Lemma has_get_Some (k : K) (m : t K V) :
  has k m = true -> exists v, get k m = Some v.
Proof. rewrite has_get. destruct (get k m); [eauto | discriminate]. Qed.

Lemma values_length (m : t K V) : List.length (values m) = size m.
Proof. apply length_map. Qed.

Lemma keys_length (m : t K V) : List.length (keys m) = size m.
Proof. apply length_map. Qed.

End JSMapFacts.

(** * Facts about [Entity] *)

Section EntityFacts.
Context {EntityType : Type}.
Implicit Types (this : Entity.t EntityType) (identifier : string)
               (entity : EntityType) (calls : list (Entity.call EntityType)).

Lemma In_keys_set {K V : Type} `{EqKey K} (k k0 : K) (v : V)
    (m : JSMap.t K V) :
  In k0 (JSMap.keys (JSMap.set k v m)) <-> k0 = k \/ In k0 (JSMap.keys m).
Proof.
  rewrite <- !has_In. destruct (key_eqb_spec k0 k) as [->|Hne].
  - rewrite has_set_eq. tauto.
  - rewrite (has_set_neq _ _ _ _ Hne). split; [auto | intros [E|]; congruence].
Qed.

(** The symbol [add] makes has no entry yet and belongs to no
    identifier. *)
Lemma fresh_symbol_notin this identifier :
  Inv this ->
  ~ In (mkSymbol (Entity.minted this) identifier)
       (JSMap.keys (Entity.entityMap this)) /\
  ~ In (mkSymbol (Entity.minted this) identifier)
       (JSMap.values (Entity.entitySymbols this)).
Proof.
  intros (_ & _ & Hlt & Hsub & _).
  assert (Hk : ~ In (mkSymbol (Entity.minted this) identifier)
                    (JSMap.keys (Entity.entityMap this))).
  { intros Hin. apply Hlt in Hin. simpl in Hin. lia. }
  split; [assumption | intros Hin; apply Hk; now apply Hsub].
Qed.

Lemma Inv_fresh (supply : nat) : Inv (@Entity.fresh EntityType supply).
Proof.
  unfold Inv, JSMap.wf. simpl. repeat split; try constructor; simpl; tauto.
Qed.

Lemma Inv_add identifier entity this :
  Inv this -> Inv (Entity.add identifier entity this).
Proof.
  intros HI. destruct (fresh_symbol_notin this identifier HI) as [Hk Hv].
  destruct HI as (Hw1 & Hw2 & Hlt & Hsub & Hnd).
  unfold Inv, Entity.add. simpl. repeat split.
  - now apply wf_set.
  - now apply wf_set.
  - intros s Hin. apply In_keys_set in Hin. destruct Hin as [->|Hin].
    + simpl. lia.
    + apply Hlt in Hin. lia.
  - intros s Hin. apply In_keys_set.
    apply In_values_set in Hin. destruct Hin as [->|Hin]; [now left|].
    right. now apply Hsub.
  - now apply NoDup_values_set.
Qed.

Lemma Inv_remove identifier this :
  Inv this -> Inv (snd (Entity.remove identifier this)).
Proof.
  intros HI. unfold Entity.remove.
  destruct (JSMap.get identifier (Entity.entitySymbols this)) as [symbol|] eqn:Hg;
    simpl; [|assumption].
  destruct HI as (Hw1 & Hw2 & Hlt & Hsub & Hnd).
  unfold Inv. simpl. repeat split.
  - now apply wf_delete.
  - now apply wf_delete.
  - intros s Hin. apply Hlt. now apply In_keys_delete in Hin.
  - intros s Hin. apply In_keys_delete_neq.
    + intros ->. now apply (values_delete_get identifier symbol _ Hnd Hg).
    + apply Hsub. now apply In_values_delete in Hin.
  - now apply NoDup_values_delete.
Qed.

Lemma Inv_clear this : Inv this -> Inv (Entity.clear this).
Proof.
  intros _. unfold Inv, JSMap.wf. simpl.
  repeat split; try constructor; simpl; tauto.
Qed.

Lemma Inv_perform (c : Entity.call EntityType) this :
  Inv this -> Inv (Entity.perform c this).
Proof.
  destruct c; simpl; auto using Inv_add, Inv_remove, Inv_clear.
Qed.

Lemma Inv_run calls this : Inv this -> Inv (Entity.run calls this).
Proof.
  revert this. induction calls as [|c calls IH]; simpl; [auto|].
  intros this HI. apply IH. now apply Inv_perform.
Qed.

Lemma Inv_constructor entities (supply : nat) :
  Inv (@Entity.constructor EntityType entities supply).
Proof.
  unfold Entity.constructor. destruct entities as [entries|];
    [|apply Inv_fresh].
  generalize (Inv_fresh supply). generalize (@Entity.fresh EntityType supply).
  induction entries as [|[i e] entries IH]; simpl; [auto|].
  intros this HI. apply IH. now apply Inv_add.
Qed.

(** Every state the public calls lead to satisfies the invariant. *)
Lemma Inv_reachable entities (supply : nat) calls :
  Inv (Entity.run calls (Entity.constructor entities supply)).
Proof. apply Inv_run, Inv_constructor. Qed.

(** The symbol supply never goes down. *)
Lemma minted_perform (c : Entity.call EntityType) this :
  Entity.minted this <= Entity.minted (Entity.perform c this).
Proof.
  destruct c as [i e|i|]; simpl; [lia | | lia].
  unfold Entity.remove. destruct (JSMap.get i _); simpl; lia.
Qed.

Lemma minted_run calls this :
  Entity.minted this <= Entity.minted (Entity.run calls this).
Proof.
  revert this. induction calls as [|c calls IH]; intros this; [simpl; lia|].
  change (Entity.minted this
          <= Entity.minted (Entity.run calls (Entity.perform c this))).
  etransitivity; [apply (minted_perform c) | apply IH].
Qed.

End EntityFacts.

(** ** Lookup *)

Section Lookup.
Context {EntityType : Type}.
Implicit Types (this : Entity.t EntityType) (identifier : string)
               (entity : EntityType) (calls : list (Entity.call EntityType)).

Lemma get_add_eq identifier entity this :
  Entity.get identifier (Entity.add identifier entity this) = Some entity.
Proof.
  unfold Entity.get, Entity.add. simpl.
  now rewrite get_set_eq, get_set_eq.
Qed.

Lemma has_false_get identifier this :
  Entity.has identifier this = false -> Entity.get identifier this = None.
Proof.
  unfold Entity.has, Entity.get. rewrite has_get.
  destruct (JSMap.get identifier (Entity.entitySymbols this));
    [discriminate | reflexivity].
Qed.

Lemma has_remove_eq identifier this :
  Inv this -> Entity.has identifier (snd (Entity.remove identifier this)) = false.
Proof.
  intros (_ & Hw & _). unfold Entity.has, Entity.remove.
  destruct (JSMap.get identifier (Entity.entitySymbols this)) eqn:Hg; simpl.
  - now apply has_delete_eq.
  - now rewrite has_get, Hg.
Qed.

Lemma has_remove_neq identifier identifier' this :
  identifier' <> identifier ->
  Entity.has identifier' (snd (Entity.remove identifier this))
  = Entity.has identifier' this.
Proof.
  intros Hne. unfold Entity.has, Entity.remove.
  destruct (JSMap.get identifier (Entity.entitySymbols this)); simpl;
    [now apply has_delete_neq | reflexivity].
Qed.

(** Without an [add] of it, an identifier that is not there stays
    away. *)
Lemma has_false_run identifier calls this :
  forallb (fun c => negb (Entity.adds identifier c)) calls = true ->
  Entity.has identifier this = false ->
  Entity.has identifier (Entity.run calls this) = false.
Proof.
  revert this. induction calls as [|c calls IH]; intros this Hno Hh;
    [assumption|].
  simpl in Hno. apply andb_true_iff in Hno. destruct Hno as [Hc Hno].
  change (Entity.has identifier
            (Entity.run calls (Entity.perform c this)) = false).
  apply IH; [assumption|]. destruct c as [i e|i|]; simpl.
  - simpl in Hc. apply negb_true_iff in Hc.
    destruct (String.eqb_spec i identifier) as [|Hne]; [discriminate|].
    unfold Entity.has, Entity.add. simpl.
    rewrite has_set_neq; [assumption | congruence].
  - destruct (String.eqb_spec identifier i) as [<-|Hne].
    + unfold Entity.remove, Entity.has in *. rewrite has_get in Hh.
      destruct (JSMap.get identifier (Entity.entitySymbols this)) eqn:Hg;
        [discriminate|]. simpl. now rewrite has_get, Hg.
    + now rewrite has_remove_neq.
  - reflexivity.
Qed.

Lemma has_constructor_absent identifier
    (entries : list (string * EntityType)) this :
  forallb (fun ie => negb (String.eqb (fst ie) identifier)) entries = true ->
  Entity.has identifier this = false ->
  Entity.has identifier
    (fold_left (fun acc ie => Entity.add (fst ie) (snd ie) acc) entries this)
  = false.
Proof.
  revert this. induction entries as [|[i e] entries IH]; intros this Hno Hh;
    [assumption|].
  simpl in Hno. apply andb_true_iff in Hno. destruct Hno as [Hc Hno].
  simpl. apply IH; [assumption|].
  apply negb_true_iff in Hc.
  destruct (String.eqb_spec i identifier) as [|Hne]; [discriminate|].
  unfold Entity.has, Entity.add. simpl.
  rewrite has_set_neq; [assumption | congruence].
Qed.

End Lookup.

(** ** Removal *)

Section Removal.
Context {EntityType : Type}.
Implicit Types (this : Entity.t EntityType) (identifier : string)
               (entity : EntityType) (symbol : symbol).

Lemma remove_absent identifier this :
  Entity.has identifier this = false ->
  Entity.remove identifier this = (false, this).
Proof.
  unfold Entity.has, Entity.remove. rewrite has_get.
  destruct (JSMap.get identifier (Entity.entitySymbols this));
    [discriminate | reflexivity].
Qed.

Lemma remove_present identifier symbol this :
  JSMap.get identifier (Entity.entitySymbols this) = Some symbol ->
  Entity.remove identifier this
  = (true,
     Entity.mk (JSMap.delete symbol (Entity.entityMap this))
               (JSMap.delete identifier (Entity.entitySymbols this))
               (Entity.minted this)).
Proof. unfold Entity.remove. now intros ->. Qed.

(** Another identifier keeps its symbol and its entity. *)
Lemma remove_other identifier identifier' this :
  Inv this -> identifier' <> identifier ->
  JSMap.get identifier' (Entity.entitySymbols (snd (Entity.remove identifier this)))
  = JSMap.get identifier' (Entity.entitySymbols this) /\
  Entity.get identifier' (snd (Entity.remove identifier this))
  = Entity.get identifier' this.
Proof.
  intros (_ & _ & _ & _ & Hnd) Hne. unfold Entity.remove.
  destruct (JSMap.get identifier (Entity.entitySymbols this)) as [symbol|] eqn:Hg;
    simpl; [|split; reflexivity].
  assert (Hs : JSMap.get identifier'
                 (JSMap.delete identifier (Entity.entitySymbols this))
               = JSMap.get identifier' (Entity.entitySymbols this))
    by now apply get_delete_neq.
  split; [assumption|]. unfold Entity.get. simpl. rewrite Hs.
  destruct (JSMap.get identifier' (Entity.entitySymbols this)) as [symbol'|] eqn:Hg';
    [|reflexivity].
  apply get_delete_neq. intros ->. apply Hne.
  eapply values_injective; eauto.
Qed.

(** A symbol that belongs to an identifier has an entity. *)
Lemma symbol_resolves identifier symbol this :
  Inv this ->
  JSMap.get identifier (Entity.entitySymbols this) = Some symbol ->
  exists entity, JSMap.get symbol (Entity.entityMap this) = Some entity /\
                 Entity.get identifier this = Some entity.
Proof.
  intros (_ & _ & _ & Hsub & _) Hg.
  assert (Hin : In symbol (JSMap.keys (Entity.entityMap this)))
    by (apply Hsub; eapply get_Some_values; eauto).
  apply has_In in Hin. apply has_get_Some in Hin. destruct Hin as [entity He].
  exists entity. split; [assumption|]. unfold Entity.get. now rewrite Hg.
Qed.

(** The identifiers are never more than the entities, whatever the
    state. *)
Lemma identifiers_le_size this :
  Inv this ->
  List.length (Entity.getAllIdentifiers this) <= Entity.size this.
Proof.
  intros (_ & _ & _ & Hsub & Hnd).
  unfold Entity.getAllIdentifiers, Entity.size.
  rewrite keys_length, <- values_length, <- (keys_length (Entity.entityMap this)).
  apply NoDup_incl_length; assumption.
Qed.

End Removal.

(** ** Combinators *)

Section Combinators.
Context {EntityType : Type}.
Implicit Types (this : Entity.t EntityType).

Lemma last_cons {A : Type} (a d : A) (l : list A) :
  last (a :: l) d = last l a.
Proof.
  revert a d. induction l as [|b l IH]; intros a d; [reflexivity|].
  change (last (b :: l) d = last (b :: l) a). now rewrite !IH.
Qed.

Lemma forEach_collect {K V T : Type} (g : V -> K -> T) (m : JSMap.t K V)
    (acc : list T) :
  JSMap.forEach (fun v k result => result ++ [g v k]) m acc
  = acc ++ List.map (fun kv => g (snd kv) (fst kv)) m.
Proof.
  unfold JSMap.forEach. revert acc.
  induction m as [|[k v] m IH]; intros acc; simpl; [now rewrite app_nil_r|].
  now rewrite IH, <- app_assoc.
Qed.

Lemma forEach_select {K V T : Type} (p : V -> K -> bool) (g : V -> K -> T)
    (m : JSMap.t K V) (acc : list T) :
  JSMap.forEach (fun v k result => if p v k then result ++ [g v k] else result)
                m acc
  = acc ++ List.map (fun kv => g (snd kv) (fst kv))
                    (List.filter (fun kv => p (snd kv) (fst kv)) m).
Proof.
  unfold JSMap.forEach. revert acc.
  induction m as [|[k v] m IH]; intros acc; simpl; [now rewrite app_nil_r|].
  rewrite IH. destruct (p v k); simpl; [now rewrite <- app_assoc | reflexivity].
Qed.

Lemma forEach_latest {K V T : Type} (p : V -> K -> bool) (g : V -> K -> T)
    (m : JSMap.t K V) (acc : T) :
  JSMap.forEach (fun v k result => if p v k then g v k else result) m acc
  = last (List.map (fun kv => g (snd kv) (fst kv))
                   (List.filter (fun kv => p (snd kv) (fst kv)) m))
         acc.
Proof.
  unfold JSMap.forEach. revert acc.
  induction m as [|[k v] m IH]; intros acc; simpl; [reflexivity|].
  rewrite IH. destruct (p v k); [|reflexivity].
  cbn [List.map fst snd]. now rewrite last_cons.
Qed.

(** [map] visits [entitySymbols] in order and hands each callback the
    entity of the symbol. *)
Lemma map_entitySymbols {T : Type} (callback : Entity.callback T) this :
  Entity.map callback this
  = List.map
      (fun kv => callback (JSMap.get (snd kv) (Entity.entityMap this))
                          (fst kv) (Entity.entityMap this))
      (Entity.entitySymbols this).
Proof. unfold Entity.map. now rewrite forEach_collect. Qed.

Lemma filter_entitySymbols (callback : Entity.callback bool) this :
  Entity.filter callback this
  = List.map snd
      (List.filter
         (fun ie => callback (snd ie) (fst ie) (Entity.entityMap this))
         (Entity.map (fun entity identifier _ => (identifier, entity)) this)).
Proof.
  rewrite map_entitySymbols. unfold Entity.filter.
  rewrite forEach_select. simpl.
  induction (Entity.entitySymbols this) as [|[i s] m IH]; simpl;
    [reflexivity|].
  destruct (callback _ i _); simpl; now rewrite IH.
Qed.

Lemma find_entitySymbols (callback : Entity.callback bool) this :
  Entity.find callback this
  = last
      (List.map snd
         (List.filter
            (fun ie => callback (snd ie) (fst ie) (Entity.entityMap this))
            (Entity.map (fun entity identifier _ => (identifier, entity))
                        this)))
      None.
Proof.
  rewrite map_entitySymbols. unfold Entity.find.
  rewrite forEach_latest. f_equal.
  induction (Entity.entitySymbols this) as [|[i s] m IH]; simpl;
    [reflexivity|].
  destruct (callback _ i _); simpl; now rewrite IH.
Qed.

(** A callback that also notes what it was called with. *)
Definition noting (callback : Entity.callback bool)
  : option EntityType -> string -> JSMap.t symbol EntityType ->
    list (string * option EntityType) ->
    bool * list (string * option EntityType) :=
  fun entity identifier entityMap noted =>
    (callback entity identifier entityMap, noted ++ [(identifier, entity)]).

Lemma find_st_noting (callback : Entity.callback bool) this :
  Entity.find_st (noting callback) this []
  = (Entity.find callback this,
     Entity.map (fun entity identifier _ => (identifier, entity)) this).
Proof.
  rewrite map_entitySymbols. unfold Entity.find_st, Entity.find, JSMap.forEach.
  assert (G : forall m result noted,
    fold_left
      (fun acc kv =>
         let (b, s') :=
           noting callback (JSMap.get (snd kv) (Entity.entityMap this))
                  (fst kv) (Entity.entityMap this) (snd acc) in
         (if b then JSMap.get (snd kv) (Entity.entityMap this) else fst acc, s'))
      m (result, noted)
    = (fold_left
         (fun acc kv =>
            if callback (JSMap.get (snd kv) (Entity.entityMap this))
                        (fst kv) (Entity.entityMap this)
            then JSMap.get (snd kv) (Entity.entityMap this) else acc)
         m result,
       noted ++ List.map
                  (fun kv => (fst kv, JSMap.get (snd kv) (Entity.entityMap this)))
                  m)).
  { induction m as [|[i s] m IH]; intros result noted; simpl;
      [now rewrite app_nil_r|].
    rewrite IH, <- app_assoc. reflexivity. }
  apply G.
Qed.

(** In a state the calls lead to, every visit has an entity to show. *)
Lemma visits_defined this :
  Inv this ->
  Forall (fun ie => exists entity, snd ie = Some entity)
         (Entity.map (fun entity identifier _ => (identifier, entity)) this).
Proof.
  intros HI. rewrite map_entitySymbols. apply Forall_forall.
  intros [i e] Hin. apply in_map_iff in Hin. destruct Hin as ([i' s] & E & Hin).
  simpl in E. inversion E; subst. simpl.
  destruct HI as (_ & _ & _ & Hsub & _).
  assert (Hk : In s (JSMap.keys (Entity.entityMap this))).
  { apply Hsub. change s with (snd (i, s)). now apply in_map. }
  apply has_In in Hk. now apply has_get_Some in Hk.
Qed.

End Combinators.


(** ** Default iteration *)

Section Iteration.
Context {EntityType : Type}.
Implicit Types (this : Entity.t EntityType).

(** What one step of the iteration shows for a symbol and an entity met
    at the same position. *)
Definition shown (entityMap : JSMap.t symbol EntityType)
    (se : symbol * EntityType) : Entity.item EntityType :=
  (Some (snd se), Some (fst se), Some (fst se), entityMap).

(** With enough calls allowed, draining stops by itself, at the end of
    the shorter of the two maps. *)
Lemma drain_combine (symbols : list symbol) (entities : list EntityType)
    (entityMap : JSMap.t symbol EntityType) (fuel : nat) :
  Nat.min (List.length symbols) (List.length entities) < fuel ->
  Entity.drain fuel (Entity.mkIterator symbols entities entityMap)
  = Some (List.map (shown entityMap) (combine symbols entities)).
Proof.
  revert symbols entities.
  induction fuel as [|fuel IH]; intros symbols entities Hlt; [lia|].
  destruct symbols as [|s symbols], entities as [|e entities];
    try reflexivity.
  simpl in Hlt. cbn [Entity.drain Entity.next JSMap.next Entity.symbols
    Entity.entities Entity.this_entityMap JSMap.done JSMap.value orb].
  rewrite IH by lia. reflexivity.
Qed.

Lemma spread_combine this :
  Entity.spread this
  = Some (List.map (shown (Entity.entityMap this))
            (combine (JSMap.values (Entity.entitySymbols this))
                     (JSMap.values (Entity.entityMap this)))).
Proof.
  unfold Entity.spread, Entity.Symbol_iterator, JSMap.values_iterator.
  apply drain_combine. lia.
Qed.

(** Every item shows its symbol twice. *)
Lemma spread_same_symbol this (items : list (Entity.item EntityType)) :
  Entity.spread this = Some items ->
  Forall (fun it => snd (fst (fst it)) = snd (fst it)) items.
Proof.
  rewrite spread_combine. intros [= <-]. apply Forall_forall.
  intros it Hin. apply in_map_iff in Hin. now destruct Hin as (se & <- & _).
Qed.

(** The items are as many as the identifiers. *)
Lemma spread_length this (items : list (Entity.item EntityType)) :
  Inv this -> Entity.spread this = Some items ->
  List.length items = List.length (Entity.getAllIdentifiers this).
Proof.
  intros HI. rewrite spread_combine. intros [= <-].
  rewrite length_map, length_combine.
  pose proof (identifiers_le_size this HI) as Hle.
  unfold Entity.getAllIdentifiers, Entity.size in *.
  rewrite keys_length in *. rewrite !values_length. lia.
Qed.

End Iteration.


(** ** Cardinalities *)

Section Cardinalities.
Context {EntityType : Type}.
Implicit Types (this : Entity.t EntityType) (identifier : string)
               (entity : EntityType).

(** [add] always makes [entityMap] one longer: its symbol is new. *)
Lemma size_add identifier entity this :
  Inv this ->
  Entity.size (Entity.add identifier entity this) = S (Entity.size this).
Proof.
  intros HI. destruct (fresh_symbol_notin this identifier HI) as [Hk _].
  unfold Entity.size, Entity.add. simpl. rewrite size_set.
  apply has_false_notin in Hk. now rewrite Hk.
Qed.

Lemma identifiers_add identifier entity this :
  List.length (Entity.getAllIdentifiers (Entity.add identifier entity this))
  = if Entity.has identifier this
    then List.length (Entity.getAllIdentifiers this)
    else S (List.length (Entity.getAllIdentifiers this)).
Proof.
  unfold Entity.getAllIdentifiers, Entity.has, Entity.add. simpl.
  rewrite !keys_length. apply size_set.
Qed.

(** A run of [add] calls only: [size] counts the calls. *)
Lemma size_add_only (entries : list (string * EntityType)) this :
  Inv this ->
  Entity.size
    (Entity.run (List.map (fun ie => Entity.Add (fst ie) (snd ie)) entries) this)
  = Entity.size this + List.length entries.
Proof.
  revert this. induction entries as [|[i e] entries IH]; intros this HI;
    simpl; [lia|].
  change (Entity.size
            (Entity.run
               (List.map (fun ie => Entity.Add (fst ie) (snd ie)) entries)
               (Entity.add i e this))
          = Entity.size this + S (List.length entries)).
  rewrite IH by now apply Inv_add. rewrite size_add by assumption. lia.
Qed.

End Cardinalities.


(** ** Comparing symbols of a supply that is not known *)

Lemma symbol_eqb_same (a : symbol) : symbol_eqb a a = true.
Proof. destruct (symbol_eqb_spec a a); congruence. Qed.

Lemma symbol_eqb_diff (a b : symbol) :
  sym_id a <> sym_id b -> symbol_eqb a b = false.
Proof. intros Hne. destruct (symbol_eqb_spec a b); congruence. Qed.

Lemma symbol_eqb_diff_key (a b : symbol) : a <> b -> symbol_eqb a b = false.
Proof. intros Hne. destruct (symbol_eqb_spec a b); congruence. Qed.

Ltac decide_symbols :=
  repeat (cbn;
          match goal with
          | |- context [symbol_eqb ?a ?b] =>
              first [ rewrite (symbol_eqb_diff a b) by (simpl; lia)
                    | rewrite (symbol_eqb_same a) ]
          end);
  cbn.

(** ** When the two maps stay aligned *)

Section Alignment.
Context {EntityType : Type}.
Implicit Types (this : Entity.t EntityType) (identifier : string)
               (entity : EntityType).

(** No [add] in the run is for an identifier that is present at the
    moment of the call. *)
Fixpoint adds_absent (calls : list (Entity.call EntityType))
    (this : Entity.t EntityType) : bool :=
  match calls with
  | [] => true
  | c :: calls' =>
      match c with
      | Entity.Add identifier _ => negb (Entity.has identifier this)
      | _ => true
      end
      && adds_absent calls' (Entity.perform c this)
  end.

Lemma delete_aligned (es : JSMap.t string symbol)
    (em : JSMap.t symbol EntityType) identifier (s : symbol) :
  NoDup (JSMap.values es) -> JSMap.values es = JSMap.keys em ->
  JSMap.get identifier es = Some s ->
  JSMap.values (JSMap.delete identifier es) = JSMap.keys (JSMap.delete s em).
Proof.
  revert em. induction es as [|[i1 s1] es IH]; intros em Hnd Hal Hg;
    [discriminate|].
  destruct em as [|[s1' e1] em]; [discriminate|].
  simpl in Hal. injection Hal as <- Hal.
  inversion Hnd as [|? ? Hnotin Hnd']; subst.
  simpl in Hg |- *. destruct (String.eqb_spec identifier i1) as [->|Hne].
  - injection Hg as <-. now rewrite symbol_eqb_same.
  - assert (Hs : s <> s1).
    { intros ->. apply Hnotin. eapply get_Some_values; eauto. }
    rewrite symbol_eqb_diff_key by assumption. simpl. f_equal. now apply IH.
Qed.

Lemma aligned_fresh (supply : nat) :
  aligned (@Entity.fresh EntityType supply).
Proof. reflexivity. Qed.

Lemma aligned_add_absent identifier entity this :
  Inv this -> aligned this -> Entity.has identifier this = false ->
  aligned (Entity.add identifier entity this).
Proof.
  intros HI Hal Hh. destruct (fresh_symbol_notin this identifier HI) as [Hk _].
  apply has_false_notin in Hk.
  unfold aligned, Entity.add, Entity.has in *. simpl.
  rewrite (set_absent _ _ _ Hh), (set_absent _ _ _ Hk).
  unfold JSMap.values, JSMap.keys in *. rewrite !map_app, Hal. reflexivity.
Qed.

Lemma aligned_remove identifier this :
  Inv this -> aligned this -> aligned (snd (Entity.remove identifier this)).
Proof.
  intros (_ & _ & _ & _ & Hnd) Hal. unfold Entity.remove.
  destruct (JSMap.get identifier (Entity.entitySymbols this)) as [s|] eqn:Hg;
    simpl; [|assumption].
  unfold aligned. simpl. now apply delete_aligned.
Qed.

Lemma aligned_run (calls : list (Entity.call EntityType)) this :
  Inv this -> aligned this -> adds_absent calls this = true ->
  aligned (Entity.run calls this).
Proof.
  revert this. induction calls as [|c calls IH]; intros this HI Hal Hok;
    [assumption|].
  simpl in Hok. apply andb_true_iff in Hok. destruct Hok as [Hc Hok].
  change (aligned (Entity.run calls (Entity.perform c this))).
  apply IH; [now apply Inv_perform | | assumption].
  destruct c as [i e|i|]; simpl.
  - apply aligned_add_absent; try assumption. now apply negb_true_iff.
  - now apply aligned_remove.
  - reflexivity.
Qed.

Lemma nth_error_combine {A B : Type} (l1 : list A) (l2 : list B) (n : nat)
    (a : A) (b : B) :
  nth_error l1 n = Some a -> nth_error l2 n = Some b ->
  nth_error (combine l1 l2) n = Some (a, b).
Proof.
  revert l1 l2. induction n as [|n IH]; intros [|x l1] [|y l2]; simpl;
    try discriminate.
  - now intros [= ->] [= ->].
  - apply IH.
Qed.

(** In an aligned state, position by position, the four views show
    the same entry, and [size] is the number of identifiers. *)
Lemma aligned_agreement this (n : nat) identifier :
  Inv this -> aligned this ->
  nth_error (Entity.getAllIdentifiers this) n = Some identifier ->
  Entity.size this = List.length (Entity.getAllIdentifiers this) /\
  exists s entity,
    JSMap.get identifier (Entity.entitySymbols this) = Some s /\
    JSMap.get s (Entity.entityMap this) = Some entity /\
    nth_error (Entity.getAllSymbols this) n = Some s /\
    nth_error
      (Entity.map (fun e i _ => (i, e)) this) n
    = Some (identifier, Some entity) /\
    exists items,
      Entity.spread this = Some items /\
      nth_error items n = Some (Some entity, Some s, Some s, Entity.entityMap this).
Proof.
  intros (Hw1 & Hw2 & _ & _ & _) Hal Hn.
  unfold aligned in Hal. split.
  { unfold Entity.size, Entity.getAllIdentifiers.
    rewrite <- (keys_length (Entity.entityMap this)), <- Hal.
    unfold JSMap.values, JSMap.keys. now rewrite !length_map. }
  unfold Entity.getAllIdentifiers, JSMap.keys in Hn.
  rewrite nth_error_map in Hn.
  destruct (nth_error (Entity.entitySymbols this) n) as [[i s]|] eqn:Hes;
    [|discriminate].
  simpl in Hn. injection Hn as ->.
  assert (Hs : nth_error (JSMap.keys (Entity.entityMap this)) n = Some s).
  { rewrite <- Hal. unfold JSMap.values. now rewrite nth_error_map, Hes. }
  unfold JSMap.keys in Hs. rewrite nth_error_map in Hs.
  destruct (nth_error (Entity.entityMap this) n) as [[s' e]|] eqn:Hem;
    [|discriminate].
  simpl in Hs. injection Hs as ->.
  assert (Hgs : JSMap.get identifier (Entity.entitySymbols this) = Some s)
    by (apply In_get; [assumption | eapply nth_error_In; eauto]).
  assert (Hge : JSMap.get s (Entity.entityMap this) = Some e)
    by (apply In_get; [assumption | eapply nth_error_In; eauto]).
  exists s, e. repeat split; try assumption.
  - unfold Entity.getAllSymbols, JSMap.keys. now rewrite nth_error_map, Hem.
  - rewrite map_entitySymbols, nth_error_map, Hes. simpl. now rewrite Hge.
  - eexists. split; [apply spread_combine|].
    rewrite nth_error_map.
    rewrite (nth_error_combine _ _ n s e); [reflexivity | |];
      unfold JSMap.values; rewrite nth_error_map;
      [now rewrite Hes | now rewrite Hem].
Qed.

End Alignment.

(** ** More facts about [JSMap] *)

Section JSMapMore.
Context {K V : Type} `{EqKey K}.
Import JSMap.

Lemma In_set (k k0 : K) (v v0 : V) (m : t K V) :
  In (k0, v0) (set k v m) -> (k0 = k /\ v0 = v) \/ In (k0, v0) m.
Proof.
  induction m as [|[k' v'] m IH]; simpl.
  - intros [E|[]]. inversion E. now left.
  - destruct (key_eqb_spec k k') as [->|Hne]; simpl.
    + intros [E|Hin]; [inversion E; now left | right; now right].
    + intros [E|Hin]; [right; now left|].
      destruct (IH Hin); [now left | right; now right].
Qed.

Lemma In_delete (k : K) (e : K * V) (m : t K V) :
  In e (delete k m) -> In e m.
Proof.
  induction m as [|[k' v'] m IH]; simpl; [tauto|].
  destruct (key_eqb k k'); simpl; tauto.
Qed.

Lemma filter_keep_all {A : Type} (p : A -> bool) (l : list A) :
  (forall x, In x l -> p x = true) -> List.filter p l = l.
Proof.
  induction l as [|a l IH]; simpl; [reflexivity|].
  intros Hall. rewrite (Hall a) by now left. f_equal. apply IH. auto.
Qed.

(** [delete] takes the key out of the keys and leaves the others in
    their order. *)
Lemma keys_delete (k : K) (m : t K V) :
  wf m ->
  keys (delete k m) = List.filter (fun k0 => negb (key_eqb k k0)) (keys m).
Proof.
  unfold wf. induction m as [|[k' v'] m IH]; simpl; [reflexivity|].
  intros Hnd. inversion Hnd as [|? ? Hnotin Hnd']; subst.
  destruct (key_eqb_spec k k') as [->|Hne]; simpl.
  - symmetry. apply filter_keep_all. intros x Hx.
    apply negb_true_iff, key_eqb_neq. intros ->. now apply Hnotin.
  - f_equal. now apply IH.
Qed.

Lemma size_delete_present (k : K) (m : t K V) :
  has k m = true -> S (size (delete k m)) = size m.
Proof.
  unfold size. induction m as [|[k' v'] m IH]; simpl; [discriminate|].
  destruct (key_eqb k k'); [reflexivity|]. simpl. intros Hh. now rewrite IH.
Qed.

Lemma fold_left_map_in {A B C : Type} (f : C -> B -> C) (g : A -> B)
    (h : C -> A -> C) (l : list A) (c : C) :
  (forall a c', In a l -> h c' a = f c' (g a)) ->
  fold_left h l c = fold_left f (List.map g l) c.
Proof.
  revert c. induction l as [|a l IH]; intros c Hext; simpl; [reflexivity|].
  rewrite Hext by now left. apply IH. intros a' c' Hin. apply Hext. now right.
Qed.

End JSMapMore.

(** ** What the combinators visit *)

Section Visits.
Context {EntityType : Type}.
Implicit Types (this : Entity.t EntityType) (identifier : string).

(** With keys pairwise different, the entity a combinator shows for an
    entry of [entitySymbols] is the one [get] returns for its
    identifier. *)
Lemma get_of_entry identifier (s : symbol) this :
  JSMap.wf (Entity.entitySymbols this) ->
  In (identifier, s) (Entity.entitySymbols this) ->
  Entity.get identifier this = JSMap.get s (Entity.entityMap this).
Proof.
  intros Hw Hin. unfold Entity.get. now rewrite (In_get _ _ _ Hw Hin).
Qed.

Lemma map_by_get {T : Type} (callback : Entity.callback T) this :
  JSMap.wf (Entity.entitySymbols this) ->
  Entity.map callback this
  = List.map
      (fun identifier =>
         callback (Entity.get identifier this) identifier
                  (Entity.entityMap this))
      (Entity.getAllIdentifiers this).
Proof.
  intros Hw. rewrite map_entitySymbols.
  unfold Entity.getAllIdentifiers, JSMap.keys. rewrite map_map.
  apply map_ext_in. intros [i s] Hin. simpl.
  now rewrite (get_of_entry i s this Hw Hin).
Qed.

(** Every symbol stored for an identifier carries that identifier as
    its description. *)
Definition tagged this : Prop :=
  forall identifier (s : symbol),
    In (identifier, s) (Entity.entitySymbols this) -> description s = identifier.

Lemma tagged_perform (c : Entity.call EntityType) this :
  tagged this -> tagged (Entity.perform c this).
Proof.
  intros Ht. destruct c as [i e|i|]; simpl.
  - intros i' s Hin. unfold Entity.add in Hin. simpl in Hin.
    apply In_set in Hin. destruct Hin as [[-> ->]|Hin]; [reflexivity | auto].
  - unfold Entity.remove.
    destruct (JSMap.get i (Entity.entitySymbols this)) as [sym|]; simpl;
      [|assumption].
    intros i' s Hin. simpl in Hin. apply In_delete in Hin. auto.
  - intros i' s [].
Qed.

Lemma tagged_reachable (entities : option (list (string * EntityType)))
    (supply : nat) (calls : list (Entity.call EntityType)) :
  tagged (Entity.run calls (Entity.constructor entities supply)).
Proof.
  assert (Hrun : forall cs this, tagged this -> tagged (Entity.run cs this)).
  { induction cs as [|c cs IH]; intros this Ht; [assumption|].
    apply (IH (Entity.perform c this)). now apply tagged_perform. }
  apply Hrun. unfold Entity.constructor.
  assert (H0 : tagged (@Entity.fresh EntityType supply)) by (intros i s []).
  destruct entities as [entries|]; [|assumption].
  revert H0. generalize (@Entity.fresh EntityType supply).
  induction entries as [|[i e] entries IH]; intros this Ht; [assumption|].
  simpl. apply IH. now apply (tagged_perform (Entity.Add i e)).
Qed.

End Visits.

(** ** [find] when the two maps are aligned *)

Section FindOrder.
Context {EntityType : Type}.
Implicit Types (this : Entity.t EntityType).

(** [find], read off the identifiers and [get]: the entity of the last
    identifier, in the order of [getAllIdentifiers()], for which the
    callback is true. *)
Lemma find_by_get (callback : Entity.callback bool) this :
  JSMap.wf (Entity.entitySymbols this) ->
  Entity.find callback this
  = last
      (List.map (fun identifier => Entity.get identifier this)
         (List.filter
            (fun identifier =>
               callback (Entity.get identifier this) identifier
                        (Entity.entityMap this))
            (Entity.getAllIdentifiers this)))
      None.
Proof.
  intros Hw.
  rewrite find_entitySymbols, (map_by_get _ this Hw), filter_map_swap, map_map.
  reflexivity.
Qed.

(** What the combinators visit, read off [entityMap], when the two
    maps list the same symbols in the same order. *)
Lemma visits_in_entityMap_order this :
  Inv this -> aligned this -> tagged this ->
  List.map (fun identifier => (identifier, Entity.get identifier this))
           (Entity.getAllIdentifiers this)
  = List.map (fun se => (description (fst se), Some (snd se)))
             (Entity.entityMap this).
Proof.
  intros (Hw1 & Hw2 & _) Hal Htag.
  unfold Entity.getAllIdentifiers, JSMap.keys. rewrite map_map.
  transitivity
    (List.map (fun s => (description s, JSMap.get s (Entity.entityMap this)))
              (JSMap.values (Entity.entitySymbols this))).
  - unfold JSMap.values. rewrite map_map. apply map_ext_in.
    intros [i s] Hin. simpl.
    rewrite (get_of_entry i s this Hw2 Hin). now rewrite (Htag i s Hin).
  - rewrite Hal. unfold JSMap.keys. rewrite map_map. apply map_ext_in.
    intros [s e] Hin. simpl. now rewrite (In_get _ _ _ Hw1 Hin).
Qed.

(** In an aligned state [find] returns the last entity, in the order of
    [entityMap], for which the callback is true. *)
Lemma find_in_entityMap_order (callback : Entity.callback bool) this :
  Inv this -> aligned this -> tagged this ->
  Entity.find callback this
  = last
      (List.map (fun se => Some (snd se))
         (List.filter
            (fun se => callback (Some (snd se)) (description (fst se))
                                (Entity.entityMap this))
            (Entity.entityMap this)))
      None.
Proof.
  intros HI Hal Htag. rewrite find_by_get by apply HI.
  pose proof (visits_in_entityMap_order this HI Hal Htag) as Hv.
  transitivity
    (last
       (List.map snd
          (List.filter
             (fun ie => callback (snd ie) (fst ie) (Entity.entityMap this))
             (List.map
                (fun identifier => (identifier, Entity.get identifier this))
                (Entity.getAllIdentifiers this))))
       None).
  - now rewrite filter_map_swap, map_map.
  - rewrite Hv, filter_map_swap, map_map. reflexivity.
Qed.

End FindOrder.

(** * Properties of the public operations *)

Local Open Scope string_scope.

(** C1. [add] puts its new symbol into [entityMap] and replaces the
    identifier's symbol in [entitySymbols]; the entry of the symbol it
    replaces stays in [entityMap].  So after a run of [add] calls on a
    new registry [size] is the number of calls, whatever the
    identifiers; after [add("x", 1); add("x", 2)], [size] is 2 although
    one identifier was added, and [entitySymbols] has one entry where
    [entityMap] has two. *)
Theorem size_after_add_twice {EntityType : Type} (supply : nat)
    (entries : list (string * EntityType)) :
  let this :=
    Entity.run [Entity.Add "x" 1%Z; Entity.Add "x" 2%Z]
               (Entity.constructor None supply) in
  Entity.size
    (Entity.run (List.map (fun ie => Entity.Add (fst ie) (snd ie)) entries)
                (Entity.constructor None supply))
  = List.length entries /\
  Entity.size this = 2 /\
  Entity.getAllIdentifiers this = ["x"] /\
  JSMap.size (Entity.entitySymbols this) = 1 /\
  JSMap.size (Entity.entityMap this) = 2.
Proof.
  intros this. split.
  - rewrite size_add_only by apply Inv_constructor. reflexivity.
  - unfold this. decide_symbols. repeat split; reflexivity.
Qed.

(** C2. After [add("x", 1); add("x", 2)] on a new registry, index 0 of
    the four views does not show one entry: [getAllIdentifiers()[0]] is
    ["x"], whose symbol is the second one made and whose entity is 2,
    as [map] shows; [getAllSymbols()[0]] is the first symbol made; and
    the first item of the iteration pairs the entity 1 with the second
    symbol. *)
Theorem order_after_add_twice (supply : nat) :
  let this :=
    Entity.run [Entity.Add "x" 1%Z; Entity.Add "x" 2%Z]
               (Entity.constructor None supply) in
  nth_error (Entity.getAllIdentifiers this) 0 = Some "x" /\
  JSMap.get "x" (Entity.entitySymbols this) = Some (mkSymbol (S supply) "x") /\
  nth_error (Entity.map (fun entity identifier _ => (identifier, entity)) this) 0
  = Some ("x", Some 2%Z) /\
  nth_error (Entity.getAllSymbols this) 0 = Some (mkSymbol supply "x") /\
  Entity.spread this
  = Some [(Some 1%Z, Some (mkSymbol (S supply) "x"),
           Some (mkSymbol (S supply) "x"), Entity.entityMap this)].
Proof.
  intros this. unfold this.
  rewrite map_entitySymbols, spread_combine.
  decide_symbols. repeat split; reflexivity.
Qed.

(** C3. [add(id, v)] followed by [get(id)] returns [v], in every state
    the calls lead to.  [get] of an identifier that was never added (it
    is not among the constructor's entries and no later call adds it),
    or that was removed and not added again since, returns [undefined];
    [get] is a total function, so nothing is thrown. *)
Theorem get_after_add {EntityType : Type}
    (entities entities0 : option (list (string * EntityType)))
    (supply : nat) (calls calls' : list (Entity.call EntityType))
    (identifier : string) (entity : EntityType) :
  forallb (fun c => negb (Entity.adds identifier c)) calls' = true ->
  forallb (fun ie => negb (String.eqb (fst ie) identifier))
          (match entities0 with Some entries => entries | None => [] end)
  = true ->
  let this := Entity.run calls (Entity.constructor entities supply) in
  Entity.get identifier (Entity.add identifier entity this) = Some entity /\
  Entity.get identifier
    (Entity.run calls' (Entity.constructor entities0 supply)) = None /\
  Entity.get identifier
    (Entity.run calls' (snd (Entity.remove identifier this))) = None.
Proof.
  intros Hcalls Hentries this. split; [apply get_add_eq|].
  split; apply has_false_get, has_false_run; try assumption.
  - unfold Entity.constructor. destruct entities0 as [entries|]; [|reflexivity].
    now apply has_constructor_absent.
  - apply has_remove_eq. apply Inv_reachable.
Qed.

Lemma get_after_add_witness :
  Entity.get "a" (Entity.add "a" 7%Z (Entity.constructor None 0)) = Some 7%Z /\
  Entity.get "a"
    (Entity.run [Entity.Add "b" 1%Z; Entity.Remove "b"]
       (Entity.constructor (Some [("c", 3%Z)]) 0)) = None /\
  Entity.get "a"
    (Entity.run [Entity.Add "b" 1%Z; Entity.Remove "b"]
       (snd (Entity.remove "a" (Entity.constructor None 0)))) = None.
Proof.
  apply (get_after_add None (Some [("c", 3%Z)]) 0 []
           [Entity.Add "b" 1%Z; Entity.Remove "b"] "a" 7%Z);
    reflexivity.
Defined.

(** C4. [remove(id)] for an identifier that is present returns [true];
    the identifier's symbol is afterwards neither a key of [entityMap]
    nor a value of [entitySymbols], [has(id)] is [false] and [get(id)]
    is [undefined]; any other identifier keeps its symbol and its
    entity.  For an identifier that is absent, [remove(id)] returns
    [false] and the state is the one before. *)
Theorem remove_present_or_absent {EntityType : Type}
    (entities : option (list (string * EntityType))) (supply : nat)
    (calls : list (Entity.call EntityType)) (identifier identifier' : string) :
  identifier' <> identifier ->
  let this := Entity.run calls (Entity.constructor entities supply) in
  let this' := snd (Entity.remove identifier this) in
  if Entity.has identifier this then
    fst (Entity.remove identifier this) = true /\
    (exists symbol,
        JSMap.get identifier (Entity.entitySymbols this) = Some symbol /\
        ~ In symbol (Entity.getAllSymbols this') /\
        ~ In symbol (JSMap.values (Entity.entitySymbols this'))) /\
    ~ In identifier (Entity.getAllIdentifiers this') /\
    Entity.has identifier this' = false /\
    Entity.get identifier this' = None /\
    JSMap.get identifier' (Entity.entitySymbols this')
    = JSMap.get identifier' (Entity.entitySymbols this) /\
    Entity.get identifier' this' = Entity.get identifier' this
  else
    Entity.remove identifier this = (false, this).
Proof.
  intros Hne this this'.
  assert (HI : Inv this) by apply Inv_reachable.
  destruct (Entity.has identifier this) eqn:Hh; [|now apply remove_absent].
  pose proof (has_remove_eq identifier this HI) as Hgone.
  destruct (remove_other identifier identifier' this HI Hne) as [Hs Hg].
  unfold Entity.has in Hh. apply has_get_Some in Hh. destruct Hh as [symbol Hsym].
  destruct HI as (Hw1 & Hw2 & _ & _ & Hnd).
  assert (E : this' = Entity.mk
                (JSMap.delete symbol (Entity.entityMap this))
                (JSMap.delete identifier (Entity.entitySymbols this))
                (Entity.minted this))
    by (unfold this'; now rewrite (remove_present identifier symbol this Hsym)).
  repeat split; try assumption.
  - now rewrite (remove_present identifier symbol this Hsym).
  - exists symbol. split; [assumption|]. rewrite E. simpl. split.
    + now apply keys_delete_notin.
    + now apply values_delete_get.
  - now apply has_false_notin.
  - now apply has_false_get.
Qed.

Lemma remove_present_or_absent_witness :
  "b" <> "a" /\
  Entity.get "b"
    (snd (Entity.remove "a"
            (Entity.constructor (Some [("a", 10%Z); ("b", 20%Z)]) 0)))
  = Some 20%Z.
Proof.
  split; [discriminate|].
  pose proof (remove_present_or_absent
                (Some [("a", 10%Z); ("b", 20%Z)]) 0 [] "a" "b"
                ltac:(discriminate)) as H.
  cbv zeta in H.
  change (Entity.has "a"
            (Entity.run [] (Entity.constructor
                              (Some [("a", 10%Z); ("b", 20%Z)]) 0)))
    with true in H.
  cbv iota in H. destruct H as (_ & _ & _ & _ & _ & _ & H).
  exact H.
Defined.

(** [find] after a run, from a new registry, in which no [add] is for
    an identifier that is present: the last match in the order of
    [entityMap]. *)
Lemma find_without_readd {EntityType : Type} (supply : nat)
    (calls : list (Entity.call EntityType))
    (callback : Entity.callback bool) :
  adds_absent calls (Entity.constructor None supply) = true ->
  Entity.find callback (Entity.run calls (Entity.constructor None supply))
  = last
      (List.map (fun se => Some (snd se))
         (List.filter
            (fun se =>
               callback (Some (snd se)) (description (fst se))
                 (Entity.entityMap
                    (Entity.run calls (Entity.constructor None supply))))
            (Entity.entityMap
               (Entity.run calls (Entity.constructor None supply)))))
      None.
Proof.
  intros Hok. apply find_in_entityMap_order.
  - apply Inv_reachable.
  - apply aligned_run; [apply Inv_constructor | reflexivity | assumption].
  - apply tagged_reachable.
Qed.

(** C5. In every state the constructor and the calls lead to, [find(fn)]
    returns the entity [get] returns for the last identifier, in the
    order of [getAllIdentifiers()], for which [fn] is true, and
    [undefined] when there is none; [fn] is called once for every
    identifier, in that order, also after a match, and always with an
    entity.  For a registry constructed from [{a: 10, b: 20}],
    [find(v => v > 0)] returns 20.  That order is the order of
    [entitySymbols], not of [entityMap]: after
    [add("x", 1); add("y", 2); add("x", 3)] on a new registry,
    [find(() => true)] returns 2, while the last entity in [entityMap]
    is 3, the one [get("x")] returns. *)
Theorem find_order_after_readd {EntityType : Type}
    (entities : option (list (string * EntityType))) (supply : nat)
    (calls : list (Entity.call EntityType))
    (callback : Entity.callback bool) :
  let this := Entity.run calls (Entity.constructor entities supply) in
  let readded :=
    Entity.run [Entity.Add "x" 1%Z; Entity.Add "y" 2%Z; Entity.Add "x" 3%Z]
               (Entity.constructor None supply) in
  Entity.find callback this
  = last
      (List.map (fun identifier => Entity.get identifier this)
         (List.filter
            (fun identifier =>
               callback (Entity.get identifier this) identifier
                        (Entity.entityMap this))
            (Entity.getAllIdentifiers this)))
      None /\
  Entity.find_st (noting callback) this []
  = (Entity.find callback this,
     List.map (fun identifier => (identifier, Entity.get identifier this))
              (Entity.getAllIdentifiers this)) /\
  Forall (fun identifier =>
            exists entity, Entity.get identifier this = Some entity)
         (Entity.getAllIdentifiers this) /\
  Entity.find
    (fun v _ _ => match v with Some n => (0 <? n)%Z | None => false end)
    (Entity.constructor (Some [("a", 10%Z); ("b", 20%Z)]) supply)
  = Some 20%Z /\
  Entity.find (fun _ _ _ => true) readded = Some 2%Z /\
  Entity.getAllIdentifiers readded = ["x"; "y"] /\
  JSMap.values (Entity.entityMap readded) = [1%Z; 2%Z; 3%Z] /\
  Entity.get "x" readded = Some 3%Z.
Proof.
  intros this readded.
  assert (HI : Inv this) by apply Inv_reachable.
  assert (Hw : JSMap.wf (Entity.entitySymbols this)) by apply HI.
  split; [now apply find_by_get|].
  split; [rewrite find_st_noting; now rewrite (map_by_get _ this Hw)|].
  split.
  { apply Forall_forall. intros identifier Hin.
    apply has_In, has_get_Some in Hin. destruct Hin as [s Hs].
    destruct (symbol_resolves identifier s this HI Hs) as (e & _ & He). eauto. }
  split.
  { rewrite find_entitySymbols, map_entitySymbols.
    decide_symbols. reflexivity. }
  unfold readded.
  split; [rewrite find_entitySymbols, map_entitySymbols|];
    decide_symbols; repeat split; reflexivity.
Qed.

(** C6. In every state the constructor and the calls lead to, the
    iteration ends and produces items that show their symbol in the
    second and in the third place, as many items as there are
    identifiers.  After [add("x", 1); add("x", 2)] on a new registry
    that is one item, while [size] is 2. *)
Theorem iteration_after_add_twice {EntityType : Type}
    (entities : option (list (string * EntityType))) (supply : nat)
    (calls : list (Entity.call EntityType)) :
  let this := Entity.run calls (Entity.constructor entities supply) in
  let twice :=
    Entity.run [Entity.Add "x" 1%Z; Entity.Add "x" 2%Z]
               (Entity.constructor None supply) in
  (exists items,
      Entity.spread this = Some items /\
      Forall (fun it => snd (fst (fst it)) = snd (fst it)) items /\
      List.length items = List.length (Entity.getAllIdentifiers this)) /\
  Entity.size twice = 2 /\
  exists items, Entity.spread twice = Some items /\ List.length items = 1.
Proof.
  intros this twice. split; [|split].
  - destruct (Entity.spread this) as [items|] eqn:Hs;
      [|now rewrite spread_combine in Hs].
    exists items. split; [reflexivity|]. split.
    + now apply (spread_same_symbol this).
    + apply spread_length; [apply Inv_reachable | assumption].
  - unfold twice. decide_symbols. reflexivity.
  - eexists. split; [apply spread_combine|].
    unfold twice. decide_symbols. reflexivity.
Qed.

(** C7. Every [add] makes a symbol of its own.  Take any two [add]
    calls, with any calls between them: the symbol the first stores for
    its identifier and the symbol the second stores for its identifier
    are different, also when the identifiers are the same; each is, at
    the moment of its [add], neither a key of [entityMap] nor a value of
    [entitySymbols]; and each carries its identifier as description. *)
Theorem add_mints_fresh_symbol {EntityType : Type}
    (entities : option (list (string * EntityType))) (supply : nat)
    (calls calls' : list (Entity.call EntityType))
    (identifier1 identifier2 : string) (entity1 entity2 : EntityType) :
  let this := Entity.run calls (Entity.constructor entities supply) in
  let first := Entity.add identifier1 entity1 this in
  let between := Entity.run calls' first in
  let second := Entity.add identifier2 entity2 between in
  exists symbol1 symbol2,
    JSMap.get identifier1 (Entity.entitySymbols first) = Some symbol1 /\
    JSMap.get identifier2 (Entity.entitySymbols second) = Some symbol2 /\
    symbol1 <> symbol2 /\
    ~ In symbol1 (Entity.getAllSymbols this) /\
    ~ In symbol1 (JSMap.values (Entity.entitySymbols this)) /\
    ~ In symbol2 (Entity.getAllSymbols between) /\
    ~ In symbol2 (JSMap.values (Entity.entitySymbols between)) /\
    description symbol1 = identifier1 /\
    description symbol2 = identifier2.
Proof.
  intros this first between second.
  assert (HI : Inv this) by apply Inv_reachable.
  assert (HI' : Inv between) by (apply Inv_run, Inv_add, HI).
  exists (mkSymbol (Entity.minted this) identifier1),
         (mkSymbol (Entity.minted between) identifier2).
  destruct (fresh_symbol_notin this identifier1 HI) as [Hk1 Hv1].
  destruct (fresh_symbol_notin between identifier2 HI') as [Hk2 Hv2].
  repeat split; try assumption.
  - unfold first, Entity.add. simpl. apply get_set_eq.
  - unfold second, Entity.add. simpl. apply get_set_eq.
  - intros E. inversion E as [[Hid Hdesc]].
    pose proof (minted_run calls' first) as Hle. fold between in Hle.
    unfold first, Entity.add in Hle. simpl in Hle. lia.
Qed.

Lemma add_mints_fresh_symbol_witness :
  JSMap.get "x"
    (Entity.entitySymbols
       (Entity.add "x" 2%Z (Entity.add "x" 1%Z (Entity.constructor None 0))))
  <> JSMap.get "x"
       (Entity.entitySymbols (Entity.add "x" 1%Z (Entity.constructor None 0))).
Proof.
  destruct (add_mints_fresh_symbol None 0 [] [] "x" "x" 1%Z 2%Z)
    as (symbol1 & symbol2 & H1 & H2 & Hne & _).
  intros E. apply Hne.
  assert (Hs : Some symbol1 = Some symbol2)
    by (rewrite <- H1, <- H2; symmetry; exact E).
  now inversion Hs.
Defined.

(** C8. After [clear()], [size] is 0 and [isEmpty] is [true], whatever
    the state before.  [isEmpty] is [true] exactly when [size] is 0.
    In a state the constructor and the calls lead to, [clear()] on an
    empty registry gives the same state back. *)
Theorem clear_empties {EntityType : Type} (any : Entity.t EntityType)
    (entities : option (list (string * EntityType))) (supply : nat)
    (calls : list (Entity.call EntityType)) :
  let this := Entity.run calls (Entity.constructor entities supply) in
  Entity.size (Entity.clear any) = 0 /\
  Entity.isEmpty (Entity.clear any) = true /\
  (Entity.isEmpty any = true <-> Entity.size any = 0) /\
  (Entity.isEmpty this = true -> Entity.clear this = this).
Proof.
  intros this.
  split; [reflexivity|]. split; [reflexivity|]. split.
  - unfold Entity.isEmpty, Entity.size. apply Nat.eqb_eq.
  - intros Hempty.
    pose proof (identifiers_le_size this (Inv_reachable _ _ _)) as Hle.
    unfold Entity.isEmpty in Hempty. apply Nat.eqb_eq in Hempty.
    unfold Entity.size, Entity.getAllIdentifiers in Hle.
    rewrite keys_length, Hempty in Hle.
    destruct this as [em es n]. simpl in *.
    destruct em; [|discriminate]. destruct es; [reflexivity | simpl in Hle; lia].
Qed.

Lemma clear_empties_witness :
  Entity.isEmpty
    (Entity.run [Entity.Remove "a"] (Entity.constructor (Some [("a", 1%Z)]) 0))
  = true /\
  Entity.clear
    (Entity.run [Entity.Remove "a"] (Entity.constructor (Some [("a", 1%Z)]) 0))
  = Entity.run [Entity.Remove "a"] (Entity.constructor (Some [("a", 1%Z)]) 0).
Proof.
  split; [reflexivity|].
  exact (proj2 (proj2 (proj2
           (clear_empties (Entity.fresh 0) (Some [("a", 1%Z)]) 0
                          [Entity.Remove "a"]))) eq_refl).
Defined.

(** C9. In every state the constructor and the calls lead to, a symbol
    stored for an identifier in [entitySymbols] is a key of [entityMap],
    so [has] of the identifier is [true] and [get] of it returns the
    entity stored for that symbol. *)
Theorem symbols_have_entities {EntityType : Type}
    (entities : option (list (string * EntityType))) (supply : nat)
    (calls : list (Entity.call EntityType))
    (identifier : string) (symbol : symbol) :
  In (identifier, symbol)
     (Entity.entitySymbols
        (Entity.run calls (Entity.constructor entities supply))) ->
  let this := Entity.run calls (Entity.constructor entities supply) in
  In symbol (Entity.getAllSymbols this) /\
  Entity.has identifier this = true /\
  exists entity,
    In (symbol, entity) (Entity.entityMap this) /\
    Entity.get identifier this = Some entity.
Proof.
  intros Hin this. fold this in Hin.
  assert (HI : Inv this) by apply Inv_reachable.
  assert (Hg : JSMap.get identifier (Entity.entitySymbols this) = Some symbol).
  { destruct HI as (_ & Hw & _). now apply In_get. }
  destruct (symbol_resolves identifier symbol this HI Hg) as (entity & He & Hget).
  split; [|split].
  - apply has_In. eapply get_Some_has; eauto.
  - eapply get_Some_has; eauto.
  - exists entity. split; [now apply get_Some_In | assumption].
Qed.

Lemma symbols_have_entities_witness :
  In ("a", mkSymbol 0 "a")
     (Entity.entitySymbols
        (Entity.run [Entity.Add "b" 2%Z; Entity.Remove "b"]
           (Entity.constructor (Some [("a", 1%Z)]) 0))) /\
  Entity.has "a"
    (Entity.run [Entity.Add "b" 2%Z; Entity.Remove "b"]
       (Entity.constructor (Some [("a", 1%Z)]) 0)) = true.
Proof.
  assert (Hin : In ("a", mkSymbol 0 "a")
                   (Entity.entitySymbols
                      (Entity.run [Entity.Add "b" 2%Z; Entity.Remove "b"]
                         (Entity.constructor (Some [("a", 1%Z)]) 0))))
    by (simpl; left; reflexivity).
  split; [exact Hin|].
  exact (proj1 (proj2 (symbols_have_entities (Some [("a", 1%Z)]) 0
                         [Entity.Add "b" 2%Z; Entity.Remove "b"]
                         "a" (mkSymbol 0 "a") Hin))).
Defined.

(** C10. In every state the constructor and the calls [add], [remove]
    and [clear] lead to, [getAllIdentifiers()] has at most [size]
    elements.  An [add] with an identifier that is present leaves the
    number of identifiers as it is and makes [size] one larger, so the
    identifiers are then fewer than [size]; an [add] with an identifier
    that is absent makes both one larger. *)
Theorem identifiers_at_most_size {EntityType : Type}
    (entities : option (list (string * EntityType))) (supply : nat)
    (calls : list (Entity.call EntityType))
    (identifier : string) (entity : EntityType) :
  let this := Entity.run calls (Entity.constructor entities supply) in
  let this' := Entity.add identifier entity this in
  List.length (Entity.getAllIdentifiers this) <= Entity.size this /\
  Entity.size this' = S (Entity.size this) /\
  if Entity.has identifier this then
    List.length (Entity.getAllIdentifiers this')
    = List.length (Entity.getAllIdentifiers this) /\
    List.length (Entity.getAllIdentifiers this') < Entity.size this' /\
    Entity.size this' - List.length (Entity.getAllIdentifiers this')
    = S (Entity.size this - List.length (Entity.getAllIdentifiers this))
  else
    List.length (Entity.getAllIdentifiers this')
    = S (List.length (Entity.getAllIdentifiers this)).
Proof.
  intros this this'.
  assert (HI : Inv this) by apply Inv_reachable.
  pose proof (identifiers_le_size this HI) as Hle.
  pose proof (size_add identifier entity this HI) as Hsize.
  pose proof (identifiers_add identifier entity this) as Hids.
  fold this' in Hsize, Hids.
  split; [assumption|]. split; [assumption|].
  destruct (Entity.has identifier this); [|assumption].
  repeat split; lia.
Qed.

(** * Further properties *)

Local Open Scope list_scope.

(** ** [add] and the constructor *)

Section AddMore.
Context {EntityType : Type}.
Implicit Types (this : Entity.t EntityType) (identifier : string)
               (entity : EntityType).

Lemma symbol_of_add identifier entity this :
  JSMap.get identifier
    (Entity.entitySymbols (Entity.add identifier entity this))
  = Some (mkSymbol (Entity.minted this) identifier).
Proof. unfold Entity.add. simpl. apply get_set_eq. Qed.

(** [add] leaves the symbol and the entity of another identifier
    alone. *)
Lemma get_add_neq identifier identifier' entity this :
  Inv this -> identifier <> identifier' ->
  JSMap.get identifier
    (Entity.entitySymbols (Entity.add identifier' entity this))
  = JSMap.get identifier (Entity.entitySymbols this) /\
  Entity.get identifier (Entity.add identifier' entity this)
  = Entity.get identifier this.
Proof.
  intros HI Hne. destruct (fresh_symbol_notin this identifier' HI) as [_ Hv].
  assert (Hs : JSMap.get identifier
                 (Entity.entitySymbols (Entity.add identifier' entity this))
               = JSMap.get identifier (Entity.entitySymbols this))
    by (unfold Entity.add; simpl; now apply get_set_neq).
  split; [assumption|]. unfold Entity.get. rewrite Hs.
  destruct (JSMap.get identifier (Entity.entitySymbols this)) as [s|] eqn:Hg;
    [|reflexivity].
  unfold Entity.add. simpl. apply get_set_neq. intros ->.
  apply Hv. eapply get_Some_values; eauto.
Qed.

Lemma symbols_add identifier entity this :
  Inv this ->
  Entity.getAllSymbols (Entity.add identifier entity this)
  = Entity.getAllSymbols this ++ [mkSymbol (Entity.minted this) identifier].
Proof.
  intros HI. destruct (fresh_symbol_notin this identifier HI) as [Hk _].
  apply has_false_notin in Hk.
  unfold Entity.getAllSymbols, Entity.add. simpl.
  now rewrite keys_set, Hk.
Qed.

(** The constructor with an object is a run of [add] calls, one per
    entry, on a new registry. *)
Lemma constructor_run (entries : list (string * EntityType)) (supply : nat) :
  Entity.constructor (Some entries) supply
  = Entity.run (List.map (fun ie => Entity.Add (fst ie) (snd ie)) entries)
               (Entity.constructor None supply).
Proof.
  unfold Entity.constructor, Entity.run. symmetry.
  generalize (@Entity.fresh EntityType supply).
  induction entries as [|[i e] entries IH]; intros this; simpl;
    [reflexivity | apply IH].
Qed.

(** Adding entries with pairwise different identifiers, none of them
    present: the identifiers are appended in order, each entry is found
    by [get], and the identifiers that were there keep their entity. *)
Lemma add_entries (entries : list (string * EntityType)) this :
  Inv this -> NoDup (List.map fst entries) ->
  (forall identifier, In identifier (List.map fst entries) ->
                      Entity.has identifier this = false) ->
  let this' :=
    fold_left (fun acc ie => Entity.add (fst ie) (snd ie) acc) entries this in
  Inv this' /\
  Entity.getAllIdentifiers this'
  = Entity.getAllIdentifiers this ++ List.map fst entries /\
  (forall identifier entity,
      In (identifier, entity) entries ->
      Entity.get identifier this' = Some entity) /\
  (forall identifier,
      ~ In identifier (List.map fst entries) ->
      Entity.get identifier this' = Entity.get identifier this).
Proof.
  revert this. induction entries as [|[i e] entries IH];
    intros this HI Hnd Habs; simpl.
  - split; [assumption|]. split; [now rewrite app_nil_r|].
    split; [intros ? ? [] | reflexivity].
  - simpl in Hnd. inversion Hnd as [|? ? Hnotin Hnd']; subst.
    assert (HI' : Inv (Entity.add i e this)) by now apply Inv_add.
    assert (Habs' : forall identifier,
               In identifier (List.map fst entries) ->
               Entity.has identifier (Entity.add i e this) = false).
    { intros identifier Hin. unfold Entity.has, Entity.add. simpl.
      rewrite has_set_neq; [apply Habs; now right | intros ->; now apply Hnotin]. }
    destruct (IH (Entity.add i e this) HI' Hnd' Habs')
      as (HIf & Hids & Hget & Hframe).
    split; [assumption|]. split; [|split].
    + rewrite Hids. unfold Entity.getAllIdentifiers, Entity.add. simpl.
      rewrite keys_set.
      assert (Hi : JSMap.has i (Entity.entitySymbols this) = false)
        by (apply Habs; now left).
      rewrite Hi, <- app_assoc. reflexivity.
    + intros identifier entity [E|Hin].
      * inversion E; subst. rewrite Hframe by assumption. apply get_add_eq.
      * now apply Hget.
    + intros identifier Hnot. rewrite Hframe by tauto.
      apply get_add_neq; [assumption | intros ->; apply Hnot; now left].
Qed.

End AddMore.

(** X1. A registry constructed from an object whose entries have
    pairwise different keys (as [Object.entries] gives them) lists the
    keys as its identifiers in the order of the entries, has as many
    entities as entries, finds every entry's value by [get], and shows
    the entries, in order, to the combinators. *)
Theorem constructor_of_entries {EntityType : Type}
    (entries : list (string * EntityType)) (supply : nat) :
  NoDup (List.map fst entries) ->
  let this := Entity.constructor (Some entries) supply in
  Entity.getAllIdentifiers this = List.map fst entries /\
  Entity.size this = List.length entries /\
  Forall (fun ie => Entity.get (fst ie) this = Some (snd ie)) entries /\
  Entity.map (fun entity identifier _ => (identifier, entity)) this
  = List.map (fun ie => (fst ie, Some (snd ie))) entries.
Proof.
  intros Hnd this.
  destruct (add_entries entries (Entity.fresh supply) (Inv_fresh supply) Hnd)
    as (HI & Hids & Hget & _); [reflexivity|].
  fold (Entity.constructor (Some entries) supply) in HI, Hids, Hget.
  fold this in HI, Hids, Hget. simpl in Hids.
  assert (Hall : Forall (fun ie => Entity.get (fst ie) this = Some (snd ie))
                        entries).
  { apply Forall_forall. intros [i e] Hin. now apply Hget. }
  split; [assumption|]. split; [|split; [assumption|]].
  - unfold this. rewrite constructor_run, size_add_only by apply Inv_constructor.
    reflexivity.
  - destruct HI as (_ & Hw & _). rewrite (map_by_get _ this Hw), Hids, map_map.
    apply map_ext_in. intros ie Hin.
    rewrite Forall_forall in Hall. now rewrite (Hall ie Hin).
Qed.

Lemma constructor_of_entries_witness :
  NoDup (List.map fst [("a", 10%Z); ("b", 20%Z)]) /\
  Entity.getAllIdentifiers
    (Entity.constructor (Some [("a", 10%Z); ("b", 20%Z)]) 0) = ["a"; "b"].
Proof.
  assert (Hnd : NoDup (List.map fst [("a", 10%Z); ("b", 20%Z)])).
  { simpl. repeat constructor; simpl; intuition discriminate. }
  split; [exact Hnd|].
  exact (proj1 (constructor_of_entries [("a", 10%Z); ("b", 20%Z)] 0 Hnd)).
Defined.

(** X2. In every state the constructor and the calls lead to, [add]
    with one identifier changes neither the symbol, nor the entity, nor
    the presence of any other identifier. *)
Theorem add_keeps_others {EntityType : Type}
    (entities : option (list (string * EntityType))) (supply : nat)
    (calls : list (Entity.call EntityType))
    (identifier identifier' : string) (entity : EntityType) :
  identifier <> identifier' ->
  let this := Entity.run calls (Entity.constructor entities supply) in
  let this' := Entity.add identifier' entity this in
  JSMap.get identifier (Entity.entitySymbols this')
  = JSMap.get identifier (Entity.entitySymbols this) /\
  Entity.get identifier this' = Entity.get identifier this /\
  Entity.has identifier this' = Entity.has identifier this.
Proof.
  intros Hne this this'.
  destruct (get_add_neq identifier identifier' entity this
              (Inv_reachable _ _ _) Hne) as [Hs Hg].
  split; [assumption|]. split; [assumption|].
  unfold this', Entity.has. now rewrite !has_get, Hs.
Qed.

Lemma add_keeps_others_witness :
  "a" <> "b" /\
  Entity.get "a"
    (Entity.add "b" 2%Z (Entity.constructor (Some [("a", 1%Z)]) 0))
  = Entity.get "a" (Entity.constructor (Some [("a", 1%Z)]) 0).
Proof.
  split; [discriminate|].
  exact (proj1 (proj2 (add_keeps_others (Some [("a", 1%Z)]) 0 [] "a" "b" 2%Z
                         ltac:(discriminate)))).
Defined.

(** X3. In every state the constructor and the calls lead to, [add]
    appends its new symbol, which carries the identifier and the number
    of symbols made so far, to [getAllSymbols()], and stores it for the
    identifier.  An identifier that is present keeps its place in
    [getAllIdentifiers()]; one that is absent is appended. *)
Theorem add_appends {EntityType : Type}
    (entities : option (list (string * EntityType))) (supply : nat)
    (calls : list (Entity.call EntityType))
    (identifier : string) (entity : EntityType) :
  let this := Entity.run calls (Entity.constructor entities supply) in
  let this' := Entity.add identifier entity this in
  let symbol := mkSymbol (Entity.minted this) identifier in
  Entity.getAllSymbols this' = Entity.getAllSymbols this ++ [symbol] /\
  JSMap.get identifier (Entity.entitySymbols this') = Some symbol /\
  JSMap.get symbol (Entity.entityMap this') = Some entity /\
  Entity.getAllIdentifiers this'
  = (if Entity.has identifier this
     then Entity.getAllIdentifiers this
     else Entity.getAllIdentifiers this ++ [identifier]).
Proof.
  intros this this' symbol.
  split; [apply symbols_add, Inv_reachable|].
  split; [apply symbol_of_add|]. split.
  - unfold this', Entity.add. simpl. apply get_set_eq.
  - unfold this', Entity.getAllIdentifiers, Entity.has, Entity.add. simpl.
    apply keys_set.
Qed.

(** ** [remove], and what [add] leaves behind *)

Section RemoveMore.
Context {EntityType : Type}.
Implicit Types (this : Entity.t EntityType) (identifier : string)
               (entity : EntityType).

Lemma delete_set {K V : Type} `{EqKey K} (k : K) (v : V) (m : JSMap.t K V) :
  JSMap.delete k (JSMap.set k v m) = JSMap.delete k m.
Proof.
  induction m as [|[k' v'] m IH]; simpl.
  - now rewrite key_eqb_refl.
  - destruct (key_eqb k k') eqn:E; simpl; rewrite E; [reflexivity|].
    now rewrite IH.
Qed.

Lemma delete_absent {K V : Type} `{EqKey K} (k : K) (m : JSMap.t K V) :
  JSMap.has k m = false -> JSMap.delete k m = m.
Proof.
  induction m as [|[k' v'] m IH]; simpl; [reflexivity|].
  destruct (key_eqb k k'); [discriminate|]. intros Hh. now rewrite IH.
Qed.

(** The value [set] replaces is no longer among the values. *)
Lemma values_set_replaces {K V : Type} `{EqKey K} (k : K) (v v0 : V)
    (m : JSMap.t K V) :
  NoDup (JSMap.values m) -> JSMap.get k m = Some v0 -> v <> v0 ->
  ~ In v0 (JSMap.values (JSMap.set k v m)).
Proof.
  induction m as [|[k' v'] m IH]; simpl; [discriminate|].
  intros Hnd. inversion Hnd as [|? ? Hnotin Hnd']; subst.
  destruct (key_eqb k k'); simpl.
  - intros [= ->] Hne [E|Hin]; [now apply Hne | now apply Hnotin].
  - intros Hg Hne [E|Hin].
    + subst v'. apply Hnotin. eapply get_Some_values; eauto.
    + now apply (IH Hnd' Hg Hne).
Qed.

(** A symbol that has an entry but belongs to no identifier keeps its
    entry through [add] and [remove]. *)
Lemma orphan_perform (c : Entity.call EntityType) (s : symbol) this :
  Inv this ->
  match c with Entity.Clear => false | _ => true end = true ->
  In s (Entity.getAllSymbols this) ->
  ~ In s (JSMap.values (Entity.entitySymbols this)) ->
  In s (Entity.getAllSymbols (Entity.perform c this)) /\
  ~ In s (JSMap.values (Entity.entitySymbols (Entity.perform c this))) /\
  JSMap.get s (Entity.entityMap (Entity.perform c this))
  = JSMap.get s (Entity.entityMap this).
Proof.
  intros HI Hc Hin Hnot. destruct c as [i e|i|]; [| |discriminate].
  - destruct (fresh_symbol_notin this i HI) as [Hk _].
    assert (Hne : s <> mkSymbol (Entity.minted this) i)
      by (intros ->; now apply Hk).
    simpl. unfold Entity.getAllSymbols, Entity.add. simpl. split; [|split].
    + apply In_keys_set. now right.
    + intros Hv. apply In_values_set in Hv. destruct Hv; [now apply Hne | tauto].
    + now apply get_set_neq.
  - simpl. unfold Entity.remove.
    destruct (JSMap.get i (Entity.entitySymbols this)) as [s'|] eqn:Hg; simpl;
      [|tauto].
    assert (Hne : s <> s').
    { intros ->. apply Hnot. eapply get_Some_values; eauto. }
    unfold Entity.getAllSymbols. simpl. split; [|split].
    + now apply In_keys_delete_neq.
    + intros Hv. apply In_values_delete in Hv. tauto.
    + now apply get_delete_neq.
Qed.

End RemoveMore.

Lemma identifiers_remove {EntityType : Type} (identifier : string)
    (this : Entity.t EntityType) :
  Inv this ->
  Entity.getAllIdentifiers (snd (Entity.remove identifier this))
  = List.filter (fun i => negb (String.eqb identifier i))
                (Entity.getAllIdentifiers this).
Proof.
  intros (_ & Hw & _). unfold Entity.remove, Entity.getAllIdentifiers.
  destruct (JSMap.get identifier (Entity.entitySymbols this)) as [s|] eqn:Hg;
    simpl.
  - exact (keys_delete identifier (Entity.entitySymbols this) Hw).
  - symmetry. apply filter_keep_all. intros i Hi.
    apply negb_true_iff. destruct (String.eqb_spec identifier i) as [<-|];
      [|reflexivity].
    apply has_In in Hi. rewrite has_get, Hg in Hi. discriminate.
Qed.

Lemma size_remove {EntityType : Type} (identifier : string)
    (this : Entity.t EntityType) :
  Inv this ->
  Entity.size this
  = (if Entity.has identifier this
     then S (Entity.size (snd (Entity.remove identifier this)))
     else Entity.size (snd (Entity.remove identifier this))).
Proof.
  intros HI. unfold Entity.has, Entity.remove, Entity.size.
  rewrite has_get.
  destruct (JSMap.get identifier (Entity.entitySymbols this)) as [s|] eqn:Hg;
    simpl; [|reflexivity].
  symmetry. apply size_delete_present.
  destruct (symbol_resolves identifier s this HI Hg) as (e & He & _).
  eapply get_Some_has; eauto.
Qed.

(** X4. In every state the constructor and the calls lead to,
    [remove(id)] takes [id] out of [getAllIdentifiers()] and leaves the
    other identifiers in their order; [size] goes down by one when [id]
    was present and stays otherwise; and a second [remove(id)] returns
    [false] and changes nothing. *)
Theorem remove_takes_out {EntityType : Type}
    (entities : option (list (string * EntityType))) (supply : nat)
    (calls : list (Entity.call EntityType)) (identifier : string) :
  let this := Entity.run calls (Entity.constructor entities supply) in
  let this' := snd (Entity.remove identifier this) in
  Entity.getAllIdentifiers this'
  = List.filter (fun i => negb (String.eqb identifier i))
                (Entity.getAllIdentifiers this) /\
  Entity.size this
  = (if Entity.has identifier this
     then S (Entity.size this') else Entity.size this') /\
  Entity.remove identifier this' = (false, this').
Proof.
  intros this this'.
  assert (HI : Inv this) by apply Inv_reachable.
  split; [now apply identifiers_remove|].
  split; [now apply size_remove|].
  apply remove_absent. now apply has_remove_eq.
Qed.

(** X5. In every state the constructor and the calls lead to, [add]
    followed by [remove] of the same identifier returns [true] and
    leaves [entityMap] as it was before the [add].  When the identifier
    was absent, [entitySymbols] is as before too; when it was present,
    its old entry is gone from [entitySymbols] but not from
    [entityMap]. *)
Theorem add_then_remove {EntityType : Type}
    (entities : option (list (string * EntityType))) (supply : nat)
    (calls : list (Entity.call EntityType))
    (identifier : string) (entity : EntityType) :
  let this := Entity.run calls (Entity.constructor entities supply) in
  Entity.remove identifier (Entity.add identifier entity this)
  = (true,
     Entity.mk (Entity.entityMap this)
       (if Entity.has identifier this
        then JSMap.delete identifier (Entity.entitySymbols this)
        else Entity.entitySymbols this)
       (S (Entity.minted this))).
Proof.
  intros this.
  assert (HI : Inv this) by apply Inv_reachable.
  destruct (fresh_symbol_notin this identifier HI) as [Hk _].
  apply has_false_notin in Hk.
  rewrite (remove_present identifier _ _ (symbol_of_add identifier entity this)).
  unfold Entity.add. simpl. rewrite !delete_set, (delete_absent _ _ Hk).
  unfold Entity.has.
  destruct (JSMap.has identifier (Entity.entitySymbols this)) eqn:Hh;
    [reflexivity | now rewrite (delete_absent _ _ Hh)].
Qed.

(** X6. In every state the constructor and the calls lead to, [add]
    with an identifier that is present leaves the symbol the
    identifier had before as a key of [entityMap], still with its
    entity, while no identifier has that symbol any more. *)
Theorem add_leaves_previous_entry {EntityType : Type}
    (entities : option (list (string * EntityType))) (supply : nat)
    (calls : list (Entity.call EntityType))
    (identifier : string) (entity : EntityType) (previous : symbol) :
  JSMap.get identifier
    (Entity.entitySymbols
       (Entity.run calls (Entity.constructor entities supply)))
  = Some previous ->
  let this := Entity.run calls (Entity.constructor entities supply) in
  let this' := Entity.add identifier entity this in
  In previous (Entity.getAllSymbols this') /\
  ~ In previous (JSMap.values (Entity.entitySymbols this')) /\
  JSMap.get previous (Entity.entityMap this')
  = JSMap.get previous (Entity.entityMap this) /\
  exists before, JSMap.get previous (Entity.entityMap this) = Some before.
Proof.
  intros Hg this this'. fold this in Hg.
  assert (HI : Inv this) by apply Inv_reachable.
  destruct (fresh_symbol_notin this identifier HI) as [Hk Hv].
  destruct (symbol_resolves identifier previous this HI Hg) as (before & He & _).
  assert (Hin : In previous (Entity.getAllSymbols this))
    by (apply has_In; eapply get_Some_has; eauto).
  assert (Hne : mkSymbol (Entity.minted this) identifier <> previous)
    by (intros E; apply Hk; now rewrite E).
  destruct HI as (_ & _ & _ & _ & Hnd).
  unfold this', Entity.getAllSymbols, Entity.add. simpl.
  split; [apply In_keys_set; now right|].
  split; [now apply values_set_replaces|].
  split; [apply get_set_neq; congruence | eauto].
Qed.

Lemma add_leaves_previous_entry_witness :
  JSMap.get "x"
    (Entity.entitySymbols
       (Entity.run [] (Entity.constructor (Some [("x", 1%Z)]) 0)))
  = Some (mkSymbol 0 "x") /\
  JSMap.get (mkSymbol 0 "x")
    (Entity.entityMap
       (Entity.add "x" 2%Z
          (Entity.run [] (Entity.constructor (Some [("x", 1%Z)]) 0))))
  = JSMap.get (mkSymbol 0 "x")
      (Entity.entityMap
         (Entity.run [] (Entity.constructor (Some [("x", 1%Z)]) 0))).
Proof.
  split; [reflexivity|].
  exact (proj1 (proj2 (proj2
           (add_leaves_previous_entry (Some [("x", 1%Z)]) 0 [] "x" 2%Z
              (mkSymbol 0 "x") eq_refl)))).
Defined.

(** X7. In every state the constructor and the calls lead to, an entry
    of [entityMap] whose symbol belongs to no identifier stays, with
    its entity, through every run of [add] and [remove] calls; only
    [clear] takes it out. *)
Theorem orphan_stays {EntityType : Type}
    (entities : option (list (string * EntityType))) (supply : nat)
    (calls calls' : list (Entity.call EntityType)) (orphan : symbol) :
  forallb (fun c => match c with Entity.Clear => false | _ => true end) calls'
  = true ->
  In orphan
     (Entity.getAllSymbols
        (Entity.run calls (Entity.constructor entities supply))) ->
  ~ In orphan
       (JSMap.values
          (Entity.entitySymbols
             (Entity.run calls (Entity.constructor entities supply)))) ->
  let this := Entity.run calls (Entity.constructor entities supply) in
  let this' := Entity.run calls' this in
  In orphan (Entity.getAllSymbols this') /\
  ~ In orphan (JSMap.values (Entity.entitySymbols this')) /\
  JSMap.get orphan (Entity.entityMap this')
  = JSMap.get orphan (Entity.entityMap this).
Proof.
  intros Hno Hin Hnot this this'. fold this in Hin, Hnot. unfold this'.
  assert (HI : Inv this) by apply Inv_reachable.
  clearbody this. clear this'. revert this HI Hin Hnot.
  induction calls' as [|c calls' IH]; intros this HI Hin Hnot;
    [now repeat split|].
  simpl in Hno. apply andb_true_iff in Hno. destruct Hno as [Hc Hno].
  destruct (orphan_perform c orphan this HI Hc Hin Hnot) as (Hin' & Hnot' & Hg).
  change (Entity.run (c :: calls') this)
    with (Entity.run calls' (Entity.perform c this)).
  destruct (IH Hno (Entity.perform c this) (Inv_perform c this HI) Hin' Hnot')
    as (H1 & H2 & H3).
  split; [assumption|]. split; [assumption|]. now rewrite H3.
Qed.

Lemma orphan_stays_witness :
  JSMap.get (mkSymbol 0 "x")
    (Entity.entityMap
       (Entity.run [Entity.Remove "x"; Entity.Add "y" 3%Z]
          (Entity.run [Entity.Add "x" 1%Z; Entity.Add "x" 2%Z]
             (Entity.constructor None 0))))
  = JSMap.get (mkSymbol 0 "x")
      (Entity.entityMap
         (Entity.run [Entity.Add "x" 1%Z; Entity.Add "x" 2%Z]
            (Entity.constructor None 0))).
Proof.
  refine (proj2 (proj2
            (orphan_stays None 0 [Entity.Add "x" 1%Z; Entity.Add "x" 2%Z]
               [Entity.Remove "x"; Entity.Add "y" 3%Z] (mkSymbol 0 "x")
               eq_refl _ _))).
  - simpl. left. reflexivity.
  - simpl. intros [E|[]]. discriminate E.
Defined.

Lemma minted_constructor {EntityType : Type}
    (entities : option (list (string * EntityType))) (supply : nat) :
  supply <= Entity.minted (Entity.constructor entities supply).
Proof.
  destruct entities as [entries|]; [|simpl; lia].
  rewrite constructor_run. apply (minted_run _ (Entity.constructor None supply)).
Qed.

(** X8. In every state the constructor and the calls lead to:
    [getAllIdentifiers()] has no identifier twice, [getAllSymbols()] has
    no symbol twice, no two identifiers have the same symbol, the
    symbol of an identifier carries the identifier as its description,
    and every symbol in [entityMap] was made before the next one the
    runtime will hand out. *)
Theorem registry_invariants {EntityType : Type}
    (entities : option (list (string * EntityType))) (supply : nat)
    (calls : list (Entity.call EntityType)) :
  let this := Entity.run calls (Entity.constructor entities supply) in
  NoDup (Entity.getAllIdentifiers this) /\
  NoDup (Entity.getAllSymbols this) /\
  NoDup (JSMap.values (Entity.entitySymbols this)) /\
  Forall (fun entry => description (snd entry) = fst entry)
         (Entity.entitySymbols this) /\
  Forall (fun symbol => sym_id symbol < Entity.minted this)
         (Entity.getAllSymbols this) /\
  supply <= Entity.minted this.
Proof.
  intros this.
  destruct (Inv_reachable entities supply calls) as (Hw1 & Hw2 & Hlt & _ & Hnd).
  fold this in Hw1, Hw2, Hlt, Hnd.
  split; [exact Hw2|]. split; [exact Hw1|]. split; [exact Hnd|].
  split; [|split].
  - apply Forall_forall. intros [i s] Hin.
    exact (tagged_reachable entities supply calls i s Hin).
  - now apply Forall_forall.
  - unfold this.
    etransitivity; [apply (minted_constructor entities) | apply minted_run].
Qed.

(** X9. In every state the constructor and the calls lead to, [has(id)]
    says whether [id] is among [getAllIdentifiers()], and whether
    [get(id)] returns an entity. *)
Theorem has_means_listed_and_found {EntityType : Type}
    (entities : option (list (string * EntityType))) (supply : nat)
    (calls : list (Entity.call EntityType)) (identifier : string) :
  let this := Entity.run calls (Entity.constructor entities supply) in
  (Entity.has identifier this = true
   <-> In identifier (Entity.getAllIdentifiers this)) /\
  (Entity.has identifier this = true
   <-> exists entity, Entity.get identifier this = Some entity).
Proof.
  intros this. split; [apply has_In|].
  split.
  - intros Hh. apply has_get_Some in Hh. destruct Hh as [s Hs].
    destruct (symbol_resolves identifier s this (Inv_reachable _ _ _) Hs)
      as (e & _ & He).
    eauto.
  - intros [e He]. unfold Entity.has. rewrite has_get.
    unfold Entity.get in He.
    destruct (JSMap.get identifier (Entity.entitySymbols this));
      [reflexivity | discriminate].
Qed.

(** ** [getAllEntities] and the combinators *)

Section ReadMore.
Context {EntityType : Type}.
Implicit Types (this : Entity.t EntityType) (identifier : string).

(** One assignment per entry: the object ends with an own property for
    every key of the map, and keeps the ones it had. *)
Lemma assign_entries (entityMap : JSMap.t symbol EntityType)
    (entries : JSMap.t string symbol)
    (obj : JSObject.t (option EntityType)) :
  JSMap.wf entries -> JSMap.has "__proto__" entries = false ->
  exists obj',
    JSMap.forEach
      (fun symbol identifier entities =>
         match entities with
         | Some o => JSObject.assign identifier (JSMap.get symbol entityMap) o
         | None => None
         end)
      entries (Some obj) = Some obj' /\
    forall identifier,
      JSObject.own identifier obj'
      = match JSMap.get identifier entries with
        | Some symbol => Some (JSMap.get symbol entityMap)
        | None => JSObject.own identifier obj
        end.
Proof.
  unfold JSMap.wf, JSMap.forEach. revert obj.
  induction entries as [|[i s] entries IH]; intros obj Hnd Hp.
  - exists obj. split; reflexivity.
  - simpl in Hnd. inversion Hnd as [|? ? Hnotin Hnd']; subst.
    change (JSMap.has "__proto__" ((i, s) :: entries))
      with (if String.eqb "__proto__" i then true
            else JSMap.has "__proto__" entries) in Hp.
    destruct (String.eqb_spec "__proto__" i) as [E|Hne]; [discriminate|].
    cbn [fold_left fst snd]. unfold JSObject.assign at 2.
    destruct (String.eqb_spec i "__proto__") as [E|_]; [congruence|].
    destruct (IH (JSMap.set i (JSMap.get s entityMap) obj) Hnd' Hp)
      as (obj' & Hrun & Hown).
    exists obj'. split; [exact Hrun|].
    intros identifier. rewrite Hown. simpl.
    destruct (String.eqb_spec identifier i) as [->|Hne'].
    + apply get_None in Hnotin. rewrite Hnotin.
      unfold JSObject.own. apply get_set_eq.
    + destruct (JSMap.get identifier entries); [reflexivity|].
      unfold JSObject.own. now apply get_set_neq.
Qed.

Lemma forEach_by_get {S : Type}
    (callback : string -> option EntityType ->
                JSMap.t symbol EntityType -> S -> S) this (s : S) :
  JSMap.wf (Entity.entitySymbols this) ->
  Entity.forEach callback this s
  = fold_left
      (fun acc identifier =>
         callback identifier (Entity.get identifier this)
                  (Entity.entityMap this) acc)
      (Entity.getAllIdentifiers this) s.
Proof.
  intros Hw. unfold Entity.forEach, JSMap.forEach, Entity.getAllIdentifiers,
    JSMap.keys.
  apply fold_left_map_in. intros [i sym] acc Hin. simpl.
  now rewrite (get_of_entry i sym this Hw Hin).
Qed.

Lemma reduce_by_get {T : Type}
    (callback : T -> option EntityType -> string ->
                JSMap.t symbol EntityType -> T) (initialValue : T) this :
  JSMap.wf (Entity.entitySymbols this) ->
  Entity.reduce callback initialValue this
  = fold_left
      (fun accumulator identifier =>
         callback accumulator (Entity.get identifier this) identifier
                  (Entity.entityMap this))
      (Entity.getAllIdentifiers this) initialValue.
Proof.
  intros Hw. unfold Entity.reduce, JSMap.forEach, Entity.getAllIdentifiers,
    JSMap.keys.
  apply fold_left_map_in. intros [i sym] acc Hin. simpl.
  now rewrite (get_of_entry i sym this Hw Hin).
Qed.

End ReadMore.

(** X10. In every state the constructor and the calls lead to in which
    ["__proto__"] is not an identifier, [getAllEntities()] returns an
    object that has an own property exactly for the identifiers that
    are present, each with the entity [get] returns for it. *)
Theorem getAllEntities_agrees_with_get {EntityType : Type}
    (entities : option (list (string * EntityType))) (supply : nat)
    (calls : list (Entity.call EntityType)) :
  Entity.has "__proto__"
    (Entity.run calls (Entity.constructor entities supply)) = false ->
  let this := Entity.run calls (Entity.constructor entities supply) in
  exists obj,
    Entity.getAllEntities this = Some obj /\
    forall identifier,
      JSObject.own identifier obj
      = (if Entity.has identifier this
         then Some (Entity.get identifier this) else None).
Proof.
  intros Hp this. fold this in Hp.
  destruct (Inv_reachable entities supply calls) as (_ & Hw & _).
  fold this in Hw.
  destruct (assign_entries (Entity.entityMap this) (Entity.entitySymbols this)
              JSObject.empty Hw Hp) as (obj & Hrun & Hown).
  exists obj. split; [exact Hrun|].
  intros identifier. rewrite Hown. unfold Entity.has, Entity.get.
  rewrite has_get.
  destruct (JSMap.get identifier (Entity.entitySymbols this)); reflexivity.
Qed.

Lemma getAllEntities_agrees_with_get_witness :
  Entity.has "__proto__"
    (Entity.run [Entity.Add "b" 2%Z] (Entity.constructor (Some [("a", 1%Z)]) 0))
  = false /\
  exists obj,
    Entity.getAllEntities
      (Entity.run [Entity.Add "b" 2%Z]
         (Entity.constructor (Some [("a", 1%Z)]) 0)) = Some obj.
Proof.
  split; [reflexivity|].
  destruct (getAllEntities_agrees_with_get (Some [("a", 1%Z)]) 0
              [Entity.Add "b" 2%Z] eq_refl) as (obj & Hobj & _).
  exists obj. exact Hobj.
Defined.

(** X11. In every state the constructor and the calls lead to, [map]
    calls its callback once per identifier, in the order of
    [getAllIdentifiers()], with the entity [get] returns for the
    identifier, which is never [undefined]; so the result has as many
    elements as there are identifiers. *)
Theorem map_follows_identifiers {EntityType T : Type}
    (entities : option (list (string * EntityType))) (supply : nat)
    (calls : list (Entity.call EntityType)) (callback : Entity.callback T) :
  let this := Entity.run calls (Entity.constructor entities supply) in
  Entity.map callback this
  = List.map
      (fun identifier =>
         callback (Entity.get identifier this) identifier
                  (Entity.entityMap this))
      (Entity.getAllIdentifiers this) /\
  Forall (fun identifier =>
            exists entity, Entity.get identifier this = Some entity)
         (Entity.getAllIdentifiers this) /\
  List.length (Entity.map callback this)
  = List.length (Entity.getAllIdentifiers this).
Proof.
  intros this.
  assert (HI : Inv this) by apply Inv_reachable.
  assert (Hw : JSMap.wf (Entity.entitySymbols this)) by apply HI.
  split; [now apply map_by_get|]. split.
  - apply Forall_forall. intros identifier Hin.
    apply has_In, has_get_Some in Hin. destruct Hin as [s Hs].
    destruct (symbol_resolves identifier s this HI Hs) as (e & _ & He). eauto.
  - rewrite (map_by_get _ this Hw). apply length_map.
Qed.

(** X12. In every state the constructor and the calls lead to,
    [forEach] and [reduce] go through the identifiers in the order of
    [getAllIdentifiers()] and hand their callback the entity [get]
    returns for each; on a registry without identifiers [reduce]
    returns its initial value. *)
Theorem forEach_reduce_follow_identifiers {EntityType S T : Type}
    (entities : option (list (string * EntityType))) (supply : nat)
    (calls : list (Entity.call EntityType))
    (each : string -> option EntityType -> JSMap.t symbol EntityType -> S -> S)
    (step : T -> option EntityType -> string -> JSMap.t symbol EntityType -> T)
    (s : S) (initialValue : T) :
  let this := Entity.run calls (Entity.constructor entities supply) in
  Entity.forEach each this s
  = fold_left
      (fun acc identifier =>
         each identifier (Entity.get identifier this)
              (Entity.entityMap this) acc)
      (Entity.getAllIdentifiers this) s /\
  Entity.reduce step initialValue this
  = fold_left
      (fun accumulator identifier =>
         step accumulator (Entity.get identifier this) identifier
              (Entity.entityMap this))
      (Entity.getAllIdentifiers this) initialValue /\
  (Entity.getAllIdentifiers this = [] ->
   Entity.reduce step initialValue this = initialValue).
Proof.
  intros this.
  assert (Hw : JSMap.wf (Entity.entitySymbols this))
    by apply (Inv_reachable entities supply calls).
  split; [now apply forEach_by_get|].
  split; [now apply reduce_by_get|].
  intros Hnil. rewrite (reduce_by_get _ _ this Hw), Hnil. reflexivity.
Qed.

(** X13. In every state the constructor and the calls lead to,
    [filter] returns, in the order of [getAllIdentifiers()], the
    entities of the identifiers for which the callback is true; [find]
    returns the last element of what [filter] returns, and [undefined]
    when [filter] returns nothing. *)
Theorem filter_find_follow_identifiers {EntityType : Type}
    (entities : option (list (string * EntityType))) (supply : nat)
    (calls : list (Entity.call EntityType))
    (callback : Entity.callback bool) :
  let this := Entity.run calls (Entity.constructor entities supply) in
  Entity.filter callback this
  = List.map (fun identifier => Entity.get identifier this)
      (List.filter
         (fun identifier =>
            callback (Entity.get identifier this) identifier
                     (Entity.entityMap this))
         (Entity.getAllIdentifiers this)) /\
  Entity.find callback this = last (Entity.filter callback this) None /\
  List.length (Entity.filter callback this)
  <= List.length (Entity.getAllIdentifiers this).
Proof.
  intros this.
  assert (Hw : JSMap.wf (Entity.entitySymbols this))
    by apply (Inv_reachable entities supply calls).
  assert (Hf : Entity.filter callback this
               = List.map (fun identifier => Entity.get identifier this)
                   (List.filter
                      (fun identifier =>
                         callback (Entity.get identifier this) identifier
                                  (Entity.entityMap this))
                      (Entity.getAllIdentifiers this))).
  { rewrite filter_entitySymbols, (map_by_get _ this Hw), filter_map_swap,
      map_map. reflexivity. }
  split; [exact Hf|]. split.
  - now rewrite find_entitySymbols, <- filter_entitySymbols.
  - rewrite Hf, length_map. apply filter_length_le.
Qed.

(** ** The iterator, call by call *)

Section IteratorMore.
Context {EntityType : Type}.

(** The iterator after [n] calls of [next]. *)
Fixpoint after_calls (n : nat) (it : Entity.iterator EntityType)
  : Entity.iterator EntityType :=
  match n with
  | O => it
  | S n' => after_calls n' (snd (Entity.next it))
  end.

Lemma next_after_calls (symbols : list symbol) (entities : list EntityType)
    (entityMap : JSMap.t symbol EntityType) (n : nat) :
  match nth_error (List.map (shown entityMap) (combine symbols entities)) n with
  | Some item =>
      fst (Entity.next
             (after_calls n (Entity.mkIterator symbols entities entityMap)))
      = JSMap.mkResult false item
  | None =>
      JSMap.done
        (fst (Entity.next
                (after_calls n (Entity.mkIterator symbols entities entityMap))))
      = true
  end.
Proof.
  revert symbols entities. induction n as [|n IH]; intros symbols entities.
  - destruct symbols as [|s symbols], entities as [|e entities]; reflexivity.
  - destruct symbols as [|s symbols], entities as [|e entities];
      cbn [after_calls Entity.next JSMap.next Entity.symbols Entity.entities
           Entity.this_entityMap snd].
    + specialize (IH [] []). simpl in IH. now rewrite nth_error_nil in IH.
    + specialize (IH [] entities). simpl in IH. now rewrite nth_error_nil in IH.
    + specialize (IH symbols []). rewrite combine_nil in IH. simpl in IH.
      now rewrite nth_error_nil in IH.
    + exact (IH symbols entities).
Qed.

End IteratorMore.

(** X14. Whatever the state, the [n]-th call of [next] on a new
    iterator answers with the [n]-th item of the iteration and [done]
    false, as long as there is such an item; every later call answers
    [done] true. *)
Theorem next_call_by_call {EntityType : Type} (this : Entity.t EntityType)
    (n : nat) :
  exists items,
    Entity.spread this = Some items /\
    match nth_error items n with
    | Some item =>
        fst (Entity.next (after_calls n (Entity.Symbol_iterator this)))
        = JSMap.mkResult false item
    | None =>
        JSMap.done
          (fst (Entity.next (after_calls n (Entity.Symbol_iterator this))))
        = true
    end.
Proof.
  eexists. split; [apply spread_combine|].
  apply (next_after_calls (JSMap.values (Entity.entitySymbols this))
           (JSMap.values (Entity.entityMap this)) (Entity.entityMap this) n).
Qed.

(** X15. Take a new registry and a run of calls in which no [add] is
    for an identifier that is present at that moment.  Then [size] is
    the number of identifiers and, at every index, [getAllIdentifiers()],
    [getAllSymbols()], [map] and the iteration show the same entry: the
    identifier, its symbol and its entity. *)
Theorem views_agree_without_readd {EntityType : Type} (supply : nat)
    (calls : list (Entity.call EntityType)) (n : nat) (identifier : string) :
  adds_absent calls (Entity.constructor None supply) = true ->
  nth_error
    (Entity.getAllIdentifiers
       (Entity.run calls (Entity.constructor None supply))) n
  = Some identifier ->
  let this := Entity.run calls (Entity.constructor None supply) in
  Entity.size this = List.length (Entity.getAllIdentifiers this) /\
  exists symbol entity,
    JSMap.get identifier (Entity.entitySymbols this) = Some symbol /\
    JSMap.get symbol (Entity.entityMap this) = Some entity /\
    nth_error (Entity.getAllSymbols this) n = Some symbol /\
    nth_error (Entity.map (fun e i _ => (i, e)) this) n
    = Some (identifier, Some entity) /\
    exists items,
      Entity.spread this = Some items /\
      nth_error items n
      = Some (Some entity, Some symbol, Some symbol, Entity.entityMap this).
Proof.
  intros Hok Hn this. fold this in Hn.
  apply aligned_agreement; [apply Inv_reachable | | assumption].
  apply aligned_run; [apply Inv_constructor | reflexivity | assumption].
Qed.

Lemma views_agree_without_readd_witness :
  Entity.size
    (Entity.run [Entity.Add "a" 1%Z; Entity.Add "b" 2%Z; Entity.Remove "a";
                 Entity.Add "a" 3%Z]
       (Entity.constructor None 0))
  = List.length
      (Entity.getAllIdentifiers
         (Entity.run [Entity.Add "a" 1%Z; Entity.Add "b" 2%Z; Entity.Remove "a";
                      Entity.Add "a" 3%Z]
            (Entity.constructor None 0))).
Proof.
  exact (proj1 (views_agree_without_readd 0
                  [Entity.Add "a" 1%Z; Entity.Add "b" 2%Z; Entity.Remove "a";
                   Entity.Add "a" 3%Z] 1 "a" eq_refl eq_refl)).
Defined.

(** ** Counting *)

(** The symbols of [entityMap] that belong to no identifier. *)
Definition orphans {EntityType : Type} (this : Entity.t EntityType)
  : list symbol :=
  List.filter
    (fun s => negb (existsb (symbol_eqb s)
                            (JSMap.values (Entity.entitySymbols this))))
    (Entity.getAllSymbols this).

(** X16. In every state the constructor and the calls lead to, [size]
    is the number of identifiers plus the number of symbols in
    [entityMap] that belong to no identifier; so when [isEmpty] is
    [true] there is no identifier, and [get] finds nothing. *)
Theorem size_counts_orphans {EntityType : Type}
    (entities : option (list (string * EntityType))) (supply : nat)
    (calls : list (Entity.call EntityType)) (identifier : string) :
  let this := Entity.run calls (Entity.constructor entities supply) in
  Entity.size this
  = List.length (Entity.getAllIdentifiers this) + List.length (orphans this) /\
  (Entity.isEmpty this = true ->
   Entity.getAllIdentifiers this = [] /\ Entity.get identifier this = None).
Proof.
  intros this.
  destruct (Inv_reachable entities supply calls) as (Hw1 & Hw2 & _ & Hsub & Hnd).
  fold this in Hw1, Hw2, Hsub, Hnd.
  set (owned := fun s => existsb (symbol_eqb s)
                           (JSMap.values (Entity.entitySymbols this))).
  assert (Howned : forall s, owned s = true
                             <-> In s (JSMap.values (Entity.entitySymbols this))).
  { intros s. unfold owned. rewrite existsb_exists. split.
    - intros (x & Hx & E). destruct (symbol_eqb_spec s x); congruence.
    - intros Hin. exists s. split; [assumption | apply symbol_eqb_same]. }
  assert (Hlen : List.length (List.filter owned (Entity.getAllSymbols this))
                 = List.length (Entity.getAllIdentifiers this)).
  { unfold Entity.getAllIdentifiers.
    rewrite keys_length, <- values_length. apply Nat.le_antisymm.
    - apply NoDup_incl_length; [now apply NoDup_filter|].
      intros s Hs. apply filter_In in Hs. now apply Howned.
    - apply NoDup_incl_length; [assumption|].
      intros s Hs. apply filter_In. split; [now apply Hsub | now apply Howned]. }
  assert (Hsize : Entity.size this
                  = List.length (Entity.getAllIdentifiers this)
                    + List.length (orphans this)).
  { rewrite <- Hlen. unfold orphans. fold owned.
    rewrite filter_length. unfold Entity.size, Entity.getAllSymbols.
    now rewrite keys_length. }
  split; [exact Hsize|].
  intros Hempty. unfold Entity.isEmpty in Hempty. apply Nat.eqb_eq in Hempty.
  fold (Entity.size this) in Hempty.
  assert (Hnil : Entity.getAllIdentifiers this = []).
  { destruct (Entity.getAllIdentifiers this); [reflexivity|].
    simpl in Hsize. lia. }
  split; [exact Hnil|].
  apply has_false_get, has_false_notin.
  fold (Entity.getAllIdentifiers this). rewrite Hnil. intros [].
Qed.

(** X17. In every state the constructor and the calls lead to,
    [remove(id)] followed by [add(id, v)] puts [id] at the end of
    [getAllIdentifiers()], makes [get(id)] return [v], and gives the
    [size] the registry had when [id] was present, one more when it was
    absent; if the two maps listed the same symbols in the same order
    before, they do so afterwards. *)
Theorem remove_then_add {EntityType : Type}
    (entities : option (list (string * EntityType))) (supply : nat)
    (calls : list (Entity.call EntityType))
    (identifier : string) (entity : EntityType) :
  let this := Entity.run calls (Entity.constructor entities supply) in
  let this' :=
    Entity.add identifier entity (snd (Entity.remove identifier this)) in
  Entity.getAllIdentifiers this'
  = List.filter (fun i => negb (String.eqb identifier i))
                (Entity.getAllIdentifiers this) ++ [identifier] /\
  Entity.get identifier this' = Some entity /\
  Entity.size this'
  = (if Entity.has identifier this
     then Entity.size this else S (Entity.size this)) /\
  (aligned this -> aligned this').
Proof.
  intros this this'.
  assert (HI : Inv this) by apply Inv_reachable.
  assert (HIr : Inv (snd (Entity.remove identifier this)))
    by now apply Inv_remove.
  pose proof (has_remove_eq identifier this HI) as Hgone.
  split; [|split; [apply get_add_eq|split]].
  - unfold this', Entity.getAllIdentifiers at 1, Entity.add. simpl.
    rewrite keys_set. unfold Entity.has in Hgone. rewrite Hgone.
    fold (Entity.getAllIdentifiers (snd (Entity.remove identifier this))).
    now rewrite identifiers_remove.
  - unfold this'. rewrite size_add by assumption.
    rewrite (size_remove identifier this HI).
    destruct (Entity.has identifier this); reflexivity.
  - intros Hal. apply aligned_add_absent; [assumption | | assumption].
    now apply aligned_remove.
Qed.

Lemma remove_then_add_witness :
  aligned (Entity.run [] (Entity.constructor (Some [("a", 1%Z); ("b", 2%Z)]) 0))
  /\
  aligned
    (Entity.add "a" 3%Z
       (snd (Entity.remove "a"
               (Entity.run []
                  (Entity.constructor (Some [("a", 1%Z); ("b", 2%Z)]) 0))))).
Proof.
  assert (Hal : aligned
                  (Entity.run []
                     (Entity.constructor (Some [("a", 1%Z); ("b", 2%Z)]) 0)))
    by reflexivity.
  split; [exact Hal|].
  exact (proj2 (proj2 (proj2
           (remove_then_add (Some [("a", 1%Z); ("b", 2%Z)]) 0 [] "a" 3%Z)))
           Hal).
Defined.
